(** * OpenVINO notebooks: pre-/post-processing glue, verified

    A shallow embedding of the numerical glue code of three notebooks
    (FreeVC voice conversion, SlowFast video recognition, EnCodec audio
    compression) together with the properties the specification states
    about it.

    Conventions.
    - Python integers are [Z].  Python and NumPy floating-point values are
      idealised as exact rationals [Q] (or reals [R] where a square root
      is taken): rounding is not modelled.  The properties proved on
      these values are those that rounding leaves alone (shapes, ranges,
      orderings, which operations are applied to what); where an index
      is computed in floating point ([np.linspace], the scaled side of a
      frame) it is only located to within one of the exact quotient.
    - The ranking of the class scores depends on the infinities and NaN
      of IEEE 754: module [Ieee] follows the same lines of the source on
      values that keep them.
    - A Python exception is a value [Raise e] of the [result] monad.
    - Functions of third-party packages (OpenCV, NumPy's sort, the
      networks) are parameters of the definitions that call them. *)

From Stdlib Require Import ZArith QArith Qround Qabs Reals Lia Lra Psatz.
From stdpp Require Import gmap strings list sorting.

(** ** Python exceptions and the error monad *)

Module Py.

Inductive exn : Set :=
| AttributeError
| AssertionError
| IndexError
| KeyError
| ValueError
| ZeroDivisionError
| RuntimeError
| cv2_error.

Inductive result (A : Type) : Type :=
| Ok (a : A)
| Raise (e : exn).
Arguments Ok {A} a.
Arguments Raise {A} e.

Definition bind {A B : Type} (m : result A) (k : A → result B) : result B :=
  match m with
  | Ok a => k a
  | Raise e => Raise e
  end.

(** [assert c] *)
Definition assert (c : bool) : result unit :=
  if c then Ok tt else Raise AssertionError.

(** A list comprehension [[f x for x in l]] whose body may raise: elements
    are evaluated left to right and the first exception escapes. *)
Fixpoint comprehension {A B : Type} (f : A → result B) (l : list A)
  : result (list B) :=
  match l with
  | [] => Ok []
  | x :: l' =>
      bind (f x) (λ y, bind (comprehension f l') (λ ys, Ok (y :: ys)))
  end.

Definition is_ok {A : Type} (m : result A) : bool :=
  match m with Ok _ => true | Raise _ => false end.

(** [x < y] on floats. *)
Definition Qlt_bool (x y : Q) : bool := negb (Qle_bool y x).

(** [int(x)] of a float: truncation towards zero. *)
Definition int_of (x : Q) : Z := Z.quot (Qnum x) (Z.pos (Qden x)).

(** [np.round]: to the nearest integer, halves to the even neighbour. *)
Definition np_round (x : Q) : Z :=
  let f := Qfloor x in
  match ((x - inject_Z f) ?= (1 # 2))%Q with
  | Lt => f
  | Gt => (f + 1)%Z
  | Eq => if Z.even f then f else (f + 1)%Z
  end.

(** [range(start, stop, step)] for a positive step. *)
Definition range (start stop step : Z) : list Z :=
  (λ k : nat, (start + Z.of_nat k * step)%Z)
    <$> seq 0 (Z.to_nat ((stop - start + step - 1) / step)).

(** The bounds of [a[start:stop]] on an axis of length [n]
    ([slice.indices] with step 1): negative positions count from the
    end, and both ends are clamped into [0, n]. *)
Definition slice_pos (n i : Z) : Z :=
  if (i <? 0)%Z then Z.max (i + n) 0 else Z.min i n.

Definition slice_bounds (n start stop : Z) : Z * Z :=
  let lo := slice_pos n start in
  let hi := slice_pos n stop in
  (lo, Z.max lo hi).

(** [l[start:stop]] on a list. *)
Definition slice_list {A : Type} (l : list A) (start stop : Z) : list A :=
  let '(lo, hi) := slice_bounds (Z.of_nat (length l)) start stop in
  take (Z.to_nat (hi - lo)) (drop (Z.to_nat lo) l).

End Py.

Export Py.

Declare Scope py_scope.
Delimit Scope py_scope with py.
Notation "'let*' x ':=' m 'in' k" := (bind m (λ x, k))
  (at level 10, x pattern, m at level 100, k at level 200,
   only parsing) : py_scope.
Notation "'check' c 'in' k" := (bind (assert c) (λ _, k))
  (at level 10, c at level 100, k at level 200, only parsing) : py_scope.

(** ** NumPy arrays

    An [ndarray] is its element type, its shape and the map from a
    multi-index to the entry stored there; entries outside the shape are
    never read by the operations below. *)

Module Np.

Local Open Scope Z_scope.
Local Open Scope py_scope.

Inductive dtype : Set := uint8 | int16 | int64 | float32.

#[global] Instance dtype_eq_dec : EqDecision dtype.
Proof. solve_decision. Defined.

Record ndarray : Type := mk_ndarray {
  dtype_of : dtype;
  shape : list Z;
  item : list Z → Q
}.

(** [a.shape[k]] *)
Definition shape_at (a : ndarray) (k : nat) : result Z :=
  match shape a !! k with
  | Some n => Ok n
  | None => Raise IndexError
  end.

(** Two's-complement wrap-around of a [bits]-wide signed integer. *)
Definition wrap_signed (bits : Z) (z : Z) : Z :=
  (z + 2 ^ (bits - 1)) mod 2 ^ bits - 2 ^ (bits - 1).

(** The value a float takes when it is stored with element type [d]. *)
Definition cast (d : dtype) (x : Q) : Q :=
  match d with
  | float32 => x
  | uint8 => inject_Z (int_of x mod 2 ^ 8)
  | int16 => inject_Z (wrap_signed 16 (int_of x))
  | int64 => inject_Z (wrap_signed 64 (int_of x))
  end.

(** [a.astype(d)] *)
Definition astype (d : dtype) (a : ndarray) : ndarray :=
  {| dtype_of := d; shape := shape a; item := λ idx, cast d (item a idx) |}.

(** [a / k] and [a * k] for a Python number [k]: a float array. *)
Definition div_scalar (a : ndarray) (k : Q) : ndarray :=
  {| dtype_of := float32; shape := shape a; item := λ idx, (item a idx / k)%Q |}.

Definition mul_scalar (a : ndarray) (k : Q) : ndarray :=
  {| dtype_of := float32; shape := shape a; item := λ idx, (item a idx * k)%Q |}.

(** [np.array(v, dtype=np.float32)] of a list of numbers. *)
Definition of_list (d : dtype) (v : list Q) : ndarray :=
  {| dtype_of := d;
     shape := [Z.of_nat (length v)];
     item := λ idx, match idx with
                    | [i] => nth (Z.to_nat i) v 0%Q
                    | _ => 0%Q
                    end |}.

(** [a.tolist()], flattened: the entries in row-major order. *)
Fixpoint flat_items (s : list Z) (f : list Z → Q) : list Q :=
  match s with
  | [] => [f []]
  | d :: s' => concat ((λ i, flat_items s' (λ idx, f (i :: idx))) <$> seqZ 0 d)
  end.

Definition tolist (a : ndarray) : list Q := flat_items (shape a) (item a).

Definition shape_eqb (s1 s2 : list Z) : bool := bool_decide (s1 = s2).

(** [np.array(l)] of a list of arrays: they are stacked along a new
    leading axis; arrays of different shapes raise [ValueError]. *)
Definition array (l : list ndarray) : result ndarray :=
  match l with
  | [] => Ok {| dtype_of := float32; shape := [0]; item := λ _, 0%Q |}
  | a :: _ =>
      if forallb (λ b, shape_eqb (shape b) (shape a)) l
      then Ok {| dtype_of :=
                   if forallb (λ b, bool_decide (dtype_of b = uint8)) l
                   then uint8 else float32;
                 shape := Z.of_nat (length l) :: shape a;
                 item := λ idx,
                   match idx with
                   | i :: idx' =>
                       match l !! Z.to_nat i with
                       | Some b => item b idx'
                       | None => 0%Q
                       end
                   | [] => 0%Q
                   end |}
      else Raise ValueError
  end.

(** Broadcasting of two shapes, aligned at their last axes; the lists
    are the reversed shapes. *)
Fixpoint broadcast_rev (s1 s2 : list Z) : result (list Z) :=
  match s1, s2 with
  | [], s => Ok s
  | s, [] => Ok s
  | d1 :: r1, d2 :: r2 =>
      let* r := broadcast_rev r1 r2 in
      if d1 =? d2 then Ok (d1 :: r)
      else if d1 =? 1 then Ok (d2 :: r)
      else if d2 =? 1 then Ok (d1 :: r)
      else Raise ValueError
  end.

Definition broadcast_shapes (s1 s2 : list Z) : result (list Z) :=
  let* r := broadcast_rev (rev s1) (rev s2) in Ok (rev r).

(** The index at which an operand of shape [s] is read for the entry
    [idx] of the broadcast result: its own trailing axes, with 0 along
    every axis of length 1. *)
Definition project_index (s idx : list Z) : list Z :=
  zip_with (λ d i, if d =? 1 then 0 else i) s
           (drop (length idx - length s) idx).

(** An elementwise binary operation [a op b] on float arrays. *)
Definition binop (op : Q → Q → Q) (a b : ndarray) : result ndarray :=
  let* s := broadcast_shapes (shape a) (shape b) in
  Ok {| dtype_of := float32;
        shape := s;
        item := λ idx, op (item a (project_index (shape a) idx))
                          (item b (project_index (shape b) idx)) |}.

(** The position of [j] in [axes]. *)
Fixpoint index_of (j : nat) (axes : list nat) : nat :=
  match axes with
  | [] => 0
  | k :: axes' => if bool_decide (k = j) then 0%nat else S (index_of j axes')
  end.

(** [a.transpose(axes)]: axis [k] of the result is axis [axes[k]] of [a]. *)
Definition transpose (a : ndarray) (axes : list nat) : result ndarray :=
  let ndim := length (shape a) in
  if bool_decide (length axes = ndim)
     && forallb (λ j, bool_decide (j ∈ axes)) (seq 0 ndim)
  then Ok {| dtype_of := dtype_of a;
             shape := (λ ax, nth ax (shape a) 0) <$> axes;
             item := λ idx,
               item a ((λ j, nth (index_of j axes) idx 0) <$> seq 0 ndim) |}
  else Raise ValueError.

(** [np.linspace(start, stop, num).astype(np.int_)]: [num] evenly spaced
    values from [start] to [stop] inclusive, truncated to integers.
    NumPy evaluates [i * ((stop - start) / (num - 1))] in double
    precision, which may fall just below a whole number that the exact
    product reaches, so that the truncated index is one less than here:
    [np.linspace(0, 122, 15)[7]] is truncated to 60, the exact value is
    61.  The first and the last index, the bounds and the order of the
    indices are the same. *)
Definition linspace_int (start stop num : Z) : result (list Z) :=
  if num <? 0 then Raise ValueError
  else Ok ((λ i, int_of (inject_Z start
                         + inject_Z i * (inject_Z (stop - start)
                                         / inject_Z (num - 1)))%Q)
             <$> seqZ 0 num).

(** [np.take(a, indices, axis=1)]: an index [i] with [-n <= i < n] picks
    entry [i] (from the end when negative) along axis 1; any other index
    raises [IndexError]. *)
Definition np_take (a : ndarray) (indices : list Z) : result ndarray :=
  match shape a with
  | c :: n :: rest =>
      if forallb (λ i, (- n <=? i) && (i <? n)) indices
      then Ok {| dtype_of := dtype_of a;
                 shape := c :: Z.of_nat (length indices) :: rest;
                 item := λ idx,
                   match idx with
                   | ch :: j :: idx' =>
                       let i := nth (Z.to_nat j) indices 0 in
                       item a (ch :: (if i <? 0 then i + n else i) :: idx')
                   | _ => 0%Q
                   end |}
      else Raise IndexError
  | _ => Raise IndexError
  end.

(** [np.expand_dims(a, 0)] and [tensor.unsqueeze(0)] *)
Definition expand_dims (a : ndarray) : ndarray :=
  {| dtype_of := dtype_of a;
     shape := 1 :: shape a;
     item := λ idx, item a (tail idx) |}.

(** The index into an array of shape [s] that the entry [idx] of its
    squeezed form comes from. *)
Fixpoint unsqueezed_index (s idx : list Z) : list Z :=
  match s with
  | [] => []
  | d :: s' =>
      if d =? 1 then 0 :: unsqueezed_index s' idx
      else hd 0 idx :: unsqueezed_index s' (tail idx)
  end.

(** [a.squeeze()]: every axis of length 1 is removed. *)
Definition squeeze (a : ndarray) : ndarray :=
  {| dtype_of := dtype_of a;
     shape := filter (λ d, d ≠ 1) (shape a);
     item := λ idx, item a (unsqueezed_index (shape a) idx) |}.

(** [a[y0:y1, x0:x1, :]] *)
Definition getitem_hw (a : ndarray) (y0 y1 x0 x1 : Z) : result ndarray :=
  match shape a with
  | h :: w :: c :: rest =>
      let '(ylo, yhi) := slice_bounds h y0 y1 in
      let '(xlo, xhi) := slice_bounds w x0 x1 in
      Ok {| dtype_of := dtype_of a;
            shape := (yhi - ylo) :: (xhi - xlo) :: c :: rest;
            item := λ idx,
              match idx with
              | y :: x :: idx' => item a (ylo + y :: xlo + x :: idx')
              | _ => 0%Q
              end |}
  | _ => Raise IndexError
  end.

End Np.

(** ** FreeVC: slicing an utterance into partial utterances *)

Module FreeVC.

Local Open Scope Z_scope.
Local Open Scope py_scope.

(** The constants the notebook imports from [speaker_encoder.hparams]. *)
Record hparams : Set := {
  sampling_rate : Z;
  mel_window_step : Z;
  partials_n_frames : Z
}.

(** A Python [slice(start, stop)]. *)
Definition pyslice : Set := (Z * Z)%type.

Section compute_partial_slices.
Variable hp : hparams.

Definition samples_per_frame : Z :=
  int_of (inject_Z (sampling_rate hp * mel_window_step hp) / inject_Z 1000)%Q.

(** [int(np.round((sampling_rate / rate) / samples_per_frame))] *)
Definition frame_step (rate : Q) : Z :=
  np_round ((inject_Z (sampling_rate hp) / rate)
            / inject_Z samples_per_frame)%Q.

(** [(n_samples - last.start) / (last.stop - last.start)] *)
Definition coverage (n_samples : Z) (last_wav_range : pyslice) : Q :=
  (inject_Z (n_samples - fst last_wav_range)
   / inject_Z (snd last_wav_range - fst last_wav_range))%Q.

Definition compute_partial_slices (n_samples : Z) (rate min_coverage : Q)
  : result (list pyslice * list pyslice) :=
  check (Qlt_bool 0 min_coverage && Qle_bool min_coverage 1) in
  (* Compute how many frames separate two partial utterances *)
  let samples_per_frame := samples_per_frame in
  let* n_frames :=
    (if samples_per_frame =? 0 then Raise ZeroDivisionError
     else Ok (Qceiling (inject_Z (n_samples + 1) / inject_Z samples_per_frame)%Q)) in
  let* frame_step :=
    (if Qeq_bool rate 0 then Raise ZeroDivisionError
     else Ok (frame_step rate)) in
  check (0 <? frame_step) in
  check (frame_step <=? partials_n_frames hp) in
  (* Compute the slices *)
  let steps := Z.max 1 (n_frames - partials_n_frames hp + frame_step + 1) in
  let mel_slices :=
    (λ i, (i, i + partials_n_frames hp)) <$> range 0 steps frame_step in
  let wav_slices :=
    (λ s : pyslice, (fst s * samples_per_frame, snd s * samples_per_frame))
      <$> mel_slices in
  (* Evaluate whether extra padding is warranted or not *)
  match last wav_slices with
  | None => Raise IndexError
  | Some last_wav_range =>
      if Qlt_bool (coverage n_samples last_wav_range) min_coverage
         && (1 <? Z.of_nat (length mel_slices))
      then Ok (removelast wav_slices, removelast mel_slices)
      else Ok (wav_slices, mel_slices)
  end.
End compute_partial_slices.

(** *** The utterance embedding

    Samples, mel frames and embeddings are real numbers here. *)
Section embed_utterance.
Variable hp : hparams.
(** [audio.wav_to_mel_spectrogram]: one row of mel channels per frame *)
Variable wav_to_mel_spectrogram : list R → list (list R).
(** The compiled speaker encoder: one embedding per partial utterance *)
Variable smodel : list (list (list R)) → list (list R).

(** [np.array(rows)] of a list of equally long sequences. *)
Definition stack {A : Type} (rows : list (list A)) : result (list (list A)) :=
  match rows with
  | [] => Ok []
  | r :: _ =>
      if forallb (λ r', bool_decide (length r' = length r)) rows
      then Ok rows else Raise ValueError
  end.

Definition Rsum (v : list R) : R := foldr Rplus 0%R v.

(** [np.mean(m, axis=0)] of a matrix given by its rows. *)
Definition mean_axis0 (m : list (list R)) : list R :=
  (λ j, Rsum ((λ row, nth j row 0%R) <$> m) / INR (length m))%R
    <$> seq 0 (length (hd [] m)).

(** [np.linalg.norm(v, 2)], as a real number: the float32 result is
    this value up to rounding. *)
Definition norm2 (v : list R) : R := sqrt (Rsum ((λ x, x * x)%R <$> v)).

(** The first half of [embed_utterance]: the partial embeddings and
    the waveform slices they come from. *)
Definition partial_embeddings (wav : list R) (rate min_coverage : Q)
  : result (list (list R) * list pyslice) :=
  (* Compute where to split the utterance into partials and pad the
     waveform with zeros if the partial utterances cover a larger range. *)
  let len := Z.of_nat (length wav) in
  let* (wav_slices, mel_slices) :=
    compute_partial_slices hp len rate min_coverage in
  let* max_wave_length := match last wav_slices with
                          | Some s => Ok (snd s)
                          | None => Raise IndexError
                          end in
  let wav :=
    if len <=? max_wave_length
    then wav ++ replicate (Z.to_nat (max_wave_length - len)) 0%R
    else wav in
  (* Split the utterance into partials and forward them through the model *)
  let mel := wav_to_mel_spectrogram wav in
  let* mels :=
    stack ((λ s : pyslice, slice_list mel (fst s) (snd s)) <$> mel_slices) in
  let partial_embeds := smodel mels in
  Ok (partial_embeds, wav_slices).

Definition embed_utterance (wav : list R) (return_partials : bool)
    (rate min_coverage : Q)
  : result (list R * option (list (list R) * list pyslice)) :=
  let* (partial_embeds, wav_slices) :=
    partial_embeddings wav rate min_coverage in
  (* Compute the utterance embedding from the partial embeddings *)
  let raw_embed := mean_axis0 partial_embeds in
  let embed := (λ x, x / norm2 raw_embed)%R <$> raw_embed in
  if return_partials
  then Ok (embed, Some (partial_embeds, wav_slices))
  else Ok (embed, None).
End embed_utterance.

(** A mel front end with one channel and one frame per 160 samples,
    an encoder that embeds every partial as (3, 4), and a three-sample
    utterance: enough to run [embed_utterance] on an example. *)
Definition sample_wav_to_mel (wav : list R) : list (list R) :=
  (λ k, [nth (k * 160) wav 0%R]) <$> seq 0 (length wav / 160).

Definition sample_smodel (mels : list (list (list R))) : list (list R) :=
  (λ _, [3; 4]%R) <$> mels.

Definition sample_wav : list R := [1; 2; 3]%R.

(** The policy for an undersized unit as the specification words it:
    kept (to be zero-padded) when its coverage reaches the threshold,
    dropped otherwise. *)
Definition spec_undersized_unit_policy (hp : hparams) (rate : Q)
    (n_samples : Z) : Prop :=
  let window := partials_n_frames hp * samples_per_frame hp in
  ∀ wav_slices mel_slices,
    compute_partial_slices hp n_samples rate (3 # 4)
      = Ok (wav_slices, mel_slices) →
    if Qlt_bool (coverage n_samples (0, window)) (3 # 4)
    then (0, window) ∉ wav_slices
    else (0, window) ∈ wav_slices.

(** The [k]-th partial utterance the loop of [compute_partial_slices]
    builds: [mel_range] and [wav_range] for [i = k * frame_step]. *)
Definition mel_unit (hp : hparams) (rate : Q) (k : nat) : pyslice :=
  (Z.of_nat k * frame_step hp rate,
   Z.of_nat k * frame_step hp rate + partials_n_frames hp).

Definition wav_unit (hp : hparams) (rate : Q) (k : nat) : pyslice :=
  (fst (mel_unit hp rate k) * samples_per_frame hp,
   snd (mel_unit hp rate k) * samples_per_frame hp).

(** The values of [speaker_encoder/hparams.py] in the FreeVC sources
    (16 kHz audio, a mel frame every 10 ms, partials of 160 frames). *)
Definition freevc_hparams : hparams :=
  {| sampling_rate := 16000; mel_window_step := 10; partials_n_frames := 160 |}.

End FreeVC.

(** ** SlowFast: video pre-processing and label ranking *)

Module SlowFast.

Import Np.
Local Open Scope Z_scope.
Local Open Scope py_scope.

(** What [video_cap.read()] hands back as a frame: an image, or [None]
    once the stream is exhausted. *)
Definition pyframe : Type := option ndarray.

(** The class scores of a batch of clips, one row per clip. *)
Abbreviation scores := (list (list Q)).

(** The two kinds of model object [run_inference] accepts; either one
    maps the list of pathway tensors to a batch of class scores. *)
Inductive model : Type :=
| CompiledModel (infer : list ndarray → result scores)
| TorchModel (forward : list ndarray → result scores).

(** The branch on [isinstance(model, ov.CompiledModel)]: the two
    invocations of the model. *)
Definition predict (model : model) (inputs : list ndarray) : result scores :=
  match model with
  | CompiledModel infer =>
      (* openvino compiled model *)
      infer inputs
  | TorchModel forward =>
      (* pytorch model *)
      forward inputs
  end.

Section video.
(** [cv2.resize(frame, (new_width, new_height), INTER_LINEAR)] *)
Variable cv2_resize : ndarray → Z → Z → result ndarray.
(** [np.exp] on one score *)
Variable exp : Q → Q.
(** [np.argsort] of one row: the indices that sort it ascending *)
Variable argsort : list Q → list nat.

(** The long side is [floor((float(long) / short) * size)]; in double
    precision the product may fall just below a whole number that the
    exact value reaches, and the side is then one less than here (a
    61 x 7 frame at size 224: 1951, exactly 1952). *)
Definition scale_short_side (size : Z) (frame : pyframe) : result ndarray :=
  let* frame := match frame with
                | Some f => Ok f
                | None => Raise AttributeError
                end in
  let* height := shape_at frame 0 in
  let* width := shape_at frame 1 in
  (* return unchanged if short side already scaled *)
  if (width <=? height) && (width =? size)
     || (height <=? width) && (height =? size)
  then Ok frame
  else
    let* (new_width, new_height) :=
      if width <? height then
        if width =? 0 then Raise ZeroDivisionError
        else Ok (size,
                 Qfloor ((inject_Z height / inject_Z width) * inject_Z size)%Q)
      else
        if height =? 0 then Raise ZeroDivisionError
        else Ok (Qfloor ((inject_Z width / inject_Z height) * inject_Z size)%Q,
                 size) in
    let* scaled := cv2_resize frame new_width new_height in
    Ok (astype float32 scaled).

Definition center_crop (size : Z) (frame : ndarray) : result ndarray :=
  let* height := shape_at frame 0 in
  let* width := shape_at frame 1 in
  let y_offset := Qceiling (inject_Z (height - size) / inject_Z 2)%Q in
  let x_offset := Qceiling (inject_Z (width - size) / inject_Z 2)%Q in
  let* cropped :=
    getitem_hw frame y_offset (y_offset + size) x_offset (x_offset + size) in
  let* h := shape_at cropped 0 in
  check (h =? size) in
  let* w := shape_at cropped 1 in
  check (w =? size) in
  Ok cropped.

Definition normalize (array : ndarray) (mean std : list Q) : result ndarray :=
  let array :=
    if bool_decide (dtype_of array = uint8)
    then div_scalar (astype float32 array) 255
    else array in
  let mean := of_list float32 mean in
  let std := of_list float32 std in
  let* array := binop Qminus array mean in
  let* array := binop Qdiv array std in
  Ok array.

Definition pack_pathway_output (frames : ndarray) (alpha : Z)
  : result (list ndarray) :=
  let fast_pathway := frames in
  (* Perform temporal sampling from the fast pathway. *)
  let* t := shape_at frames 1 in
  let* n := if alpha =? 0 then Raise ZeroDivisionError else Ok (t / alpha) in
  let* indices := linspace_int 0 (t - 1) n in
  let* slow_pathway := np_take frames indices in
  let frame_list := [slow_pathway; fast_pathway] in
  Ok frame_list.

Definition process_inputs (frames : list pyframe)
    (num_frames crop_size : Z) (mean std : list Q) : result (list ndarray) :=
  let* inputs := comprehension (scale_short_side crop_size) frames in
  let* inputs := comprehension (center_crop crop_size) inputs in
  let* inputs := array inputs in
  let inputs := div_scalar (astype float32 inputs) 255 in
  let* inputs := normalize inputs mean std in
  (* T H W C -> C T H W *)
  let* inputs := transpose inputs [3; 0; 1; 2]%nat in
  (* Sample frames for num_frames specified *)
  let* t := shape_at inputs 1 in
  let* indices := linspace_int 0 (t - 1) num_frames in
  let* inputs := np_take inputs indices in
  (* prepare pathways for the model *)
  let* inputs := pack_pathway_output inputs 4 in
  let inputs := expand_dims <$> inputs in
  Ok inputs.

(** The loop
    [while ret and len(frames) < seq_length:
         ret, frame = video_cap.read(); frames.append(frame)]
    over the frames [video] the capture can still deliver, with [todo]
    the number of frames still missing. *)
Fixpoint collect_frames (video : list ndarray) (todo : nat) {struct todo}
  : list pyframe :=
  match todo with
  | O => []
  | S todo' =>
      match video with
      | [] => [None]
      | frame :: video' => Some frame :: collect_frames video' todo'
      end
  end.

Definition softmax (x : scores) : scores :=
  let total := foldr Qplus 0%Q (exp <$> concat x) in
  (λ row : list Q, (λ v, exp v / total)%Q <$> row) <$> x.

(** The tail of [run_inference] after the model call: activation,
    ranking and label lookup. *)
Definition classify (id_to_label_mapping : gmap Z string)
    (predictions : scores) : result (list string) :=
  (* apply activation *)
  let predictions := softmax predictions in
  (* top k predicted class IDs *)
  let topk := 5%nat in
  let pred_classes :=
    (λ row : list Q, firstn topk (argsort (Qmult (-1) <$> row)))
      <$> predictions in
  (* Map the predicted classes to the label names *)
  let* row0 := match pred_classes with
               | r :: _ => Ok r
               | [] => Raise IndexError
               end in
  comprehension
    (λ i : nat, match id_to_label_mapping !! Z.of_nat i with
                | Some name => Ok name
                | None => Raise KeyError
                end) row0.

(** [video] stands for the frames that [cv2.VideoCapture(video_path)]
    decodes, in order. *)
Definition run_inference (model : model) (video : list ndarray) (top_k : Z)
    (id_to_label_mapping : gmap Z string)
    (num_frames sampling_rate crop_size : Z) (mean std : list Q)
  : result (list string) :=
  let seq_length := num_frames * sampling_rate in
  (* get the list of frames from the video *)
  let frames := collect_frames video (Z.to_nat seq_length) in
  (* prepare the inputs *)
  let* inputs := process_inputs frames num_frames crop_size mean std in
  let* predictions := predict model inputs in
  classify id_to_label_mapping predictions.
End video.

(** *** The ranking as the specification words it

    [l] lists the classes of [row] by descending score, equal scores in
    ascending index order. *)
Definition descending_ties_by_index (row : list Q) (l : list nat) : Prop :=
  l ≡ₚ seq 0 (length row)
  ∧ ∀ a b i j, (a < b)%nat → l !! a = Some i → l !! b = Some j →
      (nth j row 0 < nth i row 0)%Q
      ∨ ((nth j row 0 == nth i row 0)%Q ∧ (i < j)%nat).

(** The label lookup of [classify] on a list of class indices. *)
Definition labels_of (id_to_label_mapping : gmap Z string) (l : list nat)
  : result (list string) :=
  comprehension
    (λ i : nat, match id_to_label_mapping !! Z.of_nat i with
                | Some name => Ok name
                | None => Raise KeyError
                end) l.

(** The post-processing as the specification words it: the labels of
    the top five classes of the first row in that ranking. *)
Definition spec_classify (id_to_label_mapping : gmap Z string)
    (row : list Q) (labels : result (list string)) : Prop :=
  ∀ l, descending_ties_by_index row l →
       labels = labels_of id_to_label_mapping (firstn 5 l).

(** The slow pathway as the specification words it: every [alpha]-th
    time step of the fast pathway. *)
Definition stride_subsampled (alpha : Z) (fast slow : ndarray) : Prop :=
  ∀ t, shape fast !! 1%nat = Some t →
    shape slow !! 1%nat = Some (t / alpha)
    ∧ ∀ ch i rest, 0 ≤ i < t / alpha →
        item slow (ch :: i :: rest) = item fast (ch :: i * alpha :: rest).

(** *** What the callers rely on from the library calls *)

(** [cv2.resize] of a three-channel image with positive sides to a
    positive size yields a three-channel image of that size. *)
Definition resize_contract (cv2_resize : ndarray → Z → Z → result ndarray)
  : Prop :=
  ∀ frame h w new_width new_height,
    shape frame = [h; w; 3] → 0 < h → 0 < w →
    0 < new_width → 0 < new_height →
    ∃ scaled, cv2_resize frame new_width new_height = Ok scaled
              ∧ shape scaled = [new_height; new_width; 3].

(** [np.argsort] returns a permutation of the positions that lists the
    keys in ascending order; its default sort is not stable, so nothing
    is promised about the order of positions with equal keys. *)
Definition argsort_contract (argsort : list Q → list nat) : Prop :=
  ∀ row,
    argsort row ≡ₚ seq 0 (length row)
    ∧ ∀ a b i j, (a < b)%nat →
        argsort row !! a = Some i → argsort row !! b = Some j →
        (nth i row 0 <= nth j row 0)%Q.

(** A decoded video frame: height x width x 3 (BGR), both sides positive. *)
Definition bgr_image (frame : ndarray) : Prop :=
  ∃ h w, shape frame = [h; w; 3] ∧ 0 < h ∧ 0 < w.

(** A frame with both spatial sides at least [size]. *)
Definition at_least (size : Z) (frame : ndarray) : Prop :=
  ∃ h w, shape frame = [h; w; 3] ∧ size ≤ h ∧ size ≤ w.

(** *** Reference data *)

(** The constants of the notebook. *)
Definition NUM_FRAMES : Z := 32.
Definition SAMPLING_RATE : Z := 2.
Definition CROP_SIZE : Z := 256.
Definition MEAN : list Q := [45 # 100; 45 # 100; 45 # 100]%Q.
Definition STD : list Q := [225 # 1000; 225 # 1000; 225 # 1000]%Q.
Definition TOP_K : Z := 5.

(** A nearest-neighbour resize: one possible behaviour of
    [cv2.resize], used to run the model on examples. *)
Definition resize_nearest (frame : ndarray) (new_width new_height : Z)
  : result ndarray :=
  match shape frame with
  | [h; w; c] =>
      if (0 <? h) && (0 <? w) && (0 <? new_width) && (0 <? new_height)
      then Ok {| dtype_of := dtype_of frame;
                 shape := [new_height; new_width; c];
                 item := λ idx,
                   match idx with
                   | y :: x :: idx' =>
                       item frame (y * h / new_height :: x * w / new_width :: idx')
                   | _ => 0%Q
                   end |}
      else Raise cv2_error
  | _ => Raise cv2_error
  end.

(** One possible behaviour of [np.argsort]: an insertion sort of the
    (key, index) pairs that orders equal keys by ascending index. *)
Section insertion_sort.
Context {A : Type} (leb : A → A → bool).

Fixpoint insert (x : A) (l : list A) : list A :=
  match l with
  | [] => [x]
  | y :: l' => if leb x y then x :: l else y :: insert x l'
  end.

Definition isort (l : list A) : list A := foldr insert [] l.
End insertion_sort.

Definition key_then_index (p q : Q * nat) : bool :=
  Qlt_bool (fst p) (fst q)
  || Qeq_bool (fst p) (fst q) && (snd p <=? snd q)%nat.

Definition argsort_by (leb : Q * nat → Q * nat → bool) (row : list Q)
  : list nat :=
  snd <$> isort leb (zip row (seq 0 (length row))).

Definition argsort_stable : list Q → list nat := argsort_by key_then_index.

(** A positive, strictly increasing stand-in for the exponential. *)
Definition exp_like (x : Q) : Q :=
  if Qle_bool 0 x then (1 + x)%Q else (1 / (1 - x))%Q.

(** A clip whose entry at time step [t] is [t] itself. *)
Definition ramp_clip (t : Z) : ndarray :=
  {| dtype_of := float32;
     shape := [1; t; 1; 1];
     item := λ idx, inject_Z (nth 1 idx 0) |}.

(** A uniformly grey BGR frame. *)
Definition grey_frame (h w : Z) : ndarray :=
  {| dtype_of := uint8; shape := [h; w; 3]; item := λ _, 128%Q |}.

(** A seven-class label table, a score row with ties, and a model that
    answers every clip with that row. *)
Definition sample_labels : gmap Z string :=
  list_to_map [(0, "archery"); (1, "bowling"); (2, "juggling");
               (3, "kayaking"); (4, "surfing"); (5, "yoga"); (6, "zumba")]%Z.

Definition sample_scores : list Q := [3; 1; 2; 1; 3; 0; 7]%Q.

Definition sample_model : model := CompiledModel (λ _, Ok [sample_scores]).

End SlowFast.

(** ** SlowFast: the post-processing on floating-point values *)

(** The class scores and what [run_inference] derives from them are
    floating-point numbers.  This module follows the same lines of
    [run_inference] as [SlowFast.classify], on values that keep the
    infinities and NaN; what [np.exp], the sum and the division return
    on finite arguments (the rounding) is left to these operations,
    which are parameters. *)

Module Ieee.

Import SlowFast.
Local Open Scope py_scope.

Inductive fp : Type :=
| Finite (x : Q)
| Infinity (negative : bool)
| NaN.

(** [-1 * x], which no rounding affects *)
Definition negate (x : fp) : fp :=
  match x with
  | Finite q => Finite (-1 * q)
  | Infinity negative => Infinity (negb negative)
  | NaN => NaN
  end.

Definition is_nan (x : fp) : bool :=
  match x with
  | NaN => true
  | _ => false
  end.

(** [x <= y]: false as soon as one side is NaN *)
Definition fp_leb (x y : fp) : bool :=
  match x, y with
  | NaN, _ | _, NaN => false
  | Infinity true, _ => true
  | _, Infinity false => true
  | Finite p, Finite q => Qle_bool p q
  | _, _ => false
  end.

(** The order [np.sort] and [np.argsort] arrange by: ascending, with
    NaN after everything else. *)
Definition sorts_before (x y : fp) : bool := is_nan y || fp_leb x y.

(** [p] does not rank below [q]: [q <= p], or [q] is NaN. *)
Definition ranks_no_lower (p q : fp) : Prop :=
  is_nan q = true ∨ fp_leb q p = true.

Section postprocessing.
(** [np.exp] on one score *)
Variable exp : fp → fp.
(** [a.sum(axis=None)] of the entries of an array *)
Variable np_sum : list fp → fp.
(** [x / y] on two numbers *)
Variable divide : fp → fp → fp.
(** [np.argsort] of one row *)
Variable argsort : list fp → list nat.

Definition softmax (x : list (list fp)) : list (list fp) :=
  let total := np_sum (exp <$> concat x) in
  (λ row : list fp, (λ v, divide (exp v) total) <$> row) <$> x.

Definition classify (id_to_label_mapping : gmap Z string)
    (predictions : list (list fp)) : result (list string) :=
  (* apply activation *)
  let predictions := softmax predictions in
  (* top k predicted class IDs *)
  let topk := 5%nat in
  let pred_classes :=
    (λ row : list fp, firstn topk (argsort (negate <$> row)))
      <$> predictions in
  (* Map the predicted classes to the label names *)
  let* row0 := match pred_classes with
               | r :: _ => Ok r
               | [] => Raise IndexError
               end in
  comprehension
    (λ i : nat, match id_to_label_mapping !! Z.of_nat i with
                | Some name => Ok name
                | None => Raise KeyError
                end) row0.
End postprocessing.

(** *** What IEEE 754 and NumPy fix for the library calls

    These hold in float32 and in float64 alike. *)

(** [np.exp] overflows to infinity from 710 on (in float32 from 89 on
    already) and is finite and not negative up to 80. *)
Definition exp_special (exp : fp → fp) : Prop :=
  (∀ x, (710 <= x)%Q → exp (Finite x) = Infinity false)
  ∧ (∀ x, (x <= 80)%Q → ∃ y, exp (Finite x) = Finite y ∧ (0 <= y)%Q).

(** A sum of numbers none of which is negative is infinite as soon as
    one of them is. *)
Definition sum_special (np_sum : list fp → fp) : Prop :=
  ∀ l, Infinity false ∈ l →
       Forall (λ v, v = Infinity false ∨ ∃ y, v = Finite y ∧ (0 <= y)%Q) l →
       np_sum l = Infinity false.

(** Infinity divided by infinity is NaN; a finite number divided by
    infinity is zero. *)
Definition divide_special (divide : fp → fp → fp) : Prop :=
  divide (Infinity false) (Infinity false) = NaN
  ∧ ∀ y, divide (Finite y) (Infinity false) = Finite 0.

(** [np.argsort] returns a permutation of the positions that lists the
    keys in ascending order, NaN last; nothing is promised about the
    order of positions with equal keys. *)
Definition argsort_nan_last (argsort : list fp → list nat) : Prop :=
  ∀ row,
    argsort row ≡ₚ seq 0 (length row)
    ∧ ∀ a b i j, (a < b)%nat →
        argsort row !! a = Some i → argsort row !! b = Some j →
        sorts_before (nth i row NaN) (nth j row NaN) = true.

(** *** Reference data

    One behaviour of the four operations, exact on finite values, to
    run the post-processing on examples. *)
Definition sample_exp (x : fp) : fp :=
  match x with
  | Finite q => if Qle_bool 710 q then Infinity false else Finite (exp_like q)
  | Infinity false => Infinity false
  | Infinity true => Finite 0
  | NaN => NaN
  end.

Definition sample_add (x y : fp) : fp :=
  match x, y with
  | NaN, _ | _, NaN => NaN
  | Infinity a, Infinity b => if Bool.eqb a b then Infinity a else NaN
  | Infinity a, Finite _ | Finite _, Infinity a => Infinity a
  | Finite p, Finite q => Finite (p + q)
  end.

Definition sample_sum (l : list fp) : fp := foldr sample_add (Finite 0) l.

Definition sample_divide (x y : fp) : fp :=
  match x, y with
  | NaN, _ | _, NaN => NaN
  | Infinity _, Infinity _ => NaN
  | Infinity a, Finite q => Infinity (xorb a (Qlt_bool q 0))
  | Finite _, Infinity _ => Finite 0
  | Finite p, Finite q =>
      if Qeq_bool q 0
      then if Qeq_bool p 0 then NaN else Infinity (Qlt_bool p 0)
      else Finite (p / q)
  end.

Definition sample_argsort (row : list fp) : list nat :=
  snd <$> isort (λ p q : fp * nat, sorts_before (fst p) (fst q))
                (zip row (seq 0 (length row))).

(** Seven scores in descending order, the first one beyond the range
    of [np.exp]. *)
Definition overflow_scores : list Q := [1000; 6; 5; 4; 3; 2; 1]%Q.

End Ieee.

(** ** The conversion step and its on-disk cache *)

Module Conversion.

Local Open Scope py_scope.

(** The file system: the content of every existing file, by path. *)
Abbreviation files := (gmap string string).

Section cache.
(** An [ov.Model] in memory *)
Variable Model : Type.
(** [ov.convert_model(onnx_path)], from the content of the ONNX file *)
Variable convert_model : option string → result Model.
(** The structure and weights files [ov.save_model] serialises to *)
Variable serialize : Model → string * string.
(** [core.read_model(path)], from the structure and weights files *)
Variable read_model : option string → option string → result Model.
(** [torch.onnx.export(module, example, path)]: the bytes it writes *)
Variable onnx_export : string.

(** [Path(p).with_suffix(".bin")] for a path ending in [.xml] *)
Definition bin_path (path : string) : string :=
  String.append (String.substring 0 (String.length path - 4) path) ".bin".

(** [ov.save_model(model, path)] writes the structure file at [path]
    and the weights file next to it. *)
Definition save_model (m : Model) (path : string) (fs : files) : files :=
  let '(xml, bin) := serialize m in
  <[bin_path path := bin]> (<[path := xml]> fs).

(** The cell
    [if not ir_cmodel_path.exists(): convert, save else: read]
    as a transition of the file system together with the model (or the
    exception) the cell ends with. *)
Definition ir_cmodel_cell (onnx_cmodel_path ir_cmodel_path : string)
    (fs : files) : files * result Model :=
  if bool_decide (is_Some (fs !! ir_cmodel_path)) then
    (fs, read_model (fs !! ir_cmodel_path) (fs !! bin_path ir_cmodel_path))
  else
    match convert_model (fs !! onnx_cmodel_path) with
    | Ok ir_cmodel => (save_model ir_cmodel ir_cmodel_path fs, Ok ir_cmodel)
    | Raise e => (fs, Raise e)
    end.

(** The EnCodec cell, which also exports the ONNX file on a miss. *)
Definition OV_ENCODER_PATH : string := "encodec_encoder.xml".

Definition ov_encoder_cell (fs : files) : files * result Model :=
  if bool_decide (is_Some (fs !! OV_ENCODER_PATH)) then
    (fs, read_model (fs !! OV_ENCODER_PATH) (fs !! bin_path OV_ENCODER_PATH))
  else
    let fs := <["encodec_encoder.onnx" := onnx_export]> fs in
    match convert_model (fs !! "encodec_encoder.onnx") with
    | Ok encoder_ov => (save_model encoder_ov OV_ENCODER_PATH fs, Ok encoder_ov)
    | Raise e => (fs, Raise e)
    end.
End cache.

Section reconvert.
Variable Model : Type.
Variable convert_model : option string → result Model.
Variable serialize : Model → string * string.
Variable read_model : option string → option string → result Model.

(** The SlowFast notebook converts without looking for a cached
    artifact:
    [model = ov.convert_model(ONNX_MODEL_PATH); ov.save_model(model, IR_PATH);
     conv_model = core.read_model(IR_PATH)]. *)
Definition slowfast_convert_cells (onnx_model_path ir_path : string)
    (fs : files) : files * result Model :=
  match convert_model (fs !! onnx_model_path) with
  | Ok model =>
      let fs := save_model Model serialize model ir_path fs in
      (fs, read_model (fs !! ir_path) (fs !! bin_path ir_path))
  | Raise e => (fs, Raise e)
  end.
End reconvert.

(** A toy converter, enough to run the cells on an example: a model is
    the text of its ONNX file, stored as is with an empty weights file. *)
Definition sample_convert (onnx : option string) : result string :=
  match onnx with
  | Some text => Ok text
  | None => Raise RuntimeError
  end.

Definition sample_serialize (m : string) : string * string := (m, "").

Definition sample_read (xml bin : option string) : result string :=
  match xml, bin with
  | Some text, Some _ => Ok text
  | _, _ => Raise RuntimeError
  end.

End Conversion.

(** ** EnCodec: the adaptors of the demo *)

Module Encodec.

Import Np.
Local Open Scope Z_scope.

Section adaptors.
(** [encodec.utils.convert_audio(wav, sr, target_sr, target_channels)] *)
Variable convert_audio : ndarray → Z → Z → Z → ndarray.

Definition preprocess (input : ndarray) (sample_rate model_sr model_channels : Z)
  : ndarray :=
  let input := astype float32 input in
  let input := div_scalar input (inject_Z (2 ^ 15)) in  (* adjust to int16 scale *)
  let input := expand_dims input in
  let input := convert_audio input sample_rate model_sr model_channels in
  input.

Definition postprocess (output : ndarray) : ndarray :=
  let output := squeeze output in
  let output := mul_scalar output (inject_Z (2 ^ 15)) in  (* adjust to [-1, 1] scale *)
  let output := astype int16 output in
  output.
End adaptors.

Section frames.
(** [compiled_encoder(x)] and [compiled_decoder(inputs)]: the tensors of
    the model's outputs, in the order of its [outputs] *)
Variable compiled_encoder : ndarray → list ndarray.
Variable compiled_decoder : list ndarray → list ndarray.

(** [result[compiled_model.output(k)]]; a model without an output [k]
    has no such port. *)
Definition output (tensors : list ndarray) (k : nat) : Py.result ndarray :=
  match tensors !! k with
  | Some tensor => Ok tensor
  | None => Raise RuntimeError
  end.

Definition encode_frame (x : ndarray) : Py.result (ndarray * option ndarray) :=
  let result := compiled_encoder x in
  let has_scale := bool_decide (length result = 2%nat) in
  bind (output result 0) (λ codes,
    if has_scale
    then bind (output result 1) (λ scale, Ok (codes, Some scale))
    else Ok (codes, None)).

Definition decode_frame (encoded_frame : ndarray * option ndarray)
  : Py.result ndarray :=
  let '(codes, scale) := encoded_frame in
  let inputs := [codes] in
  let inputs := match scale with
                | Some scale => inputs ++ [scale]
                | None => inputs
                end in
  output (compiled_decoder inputs) 0.
End frames.

(** [convert_audio] when the sample rate and the channel count already
    match the model. *)
Definition convert_audio_matching (wav : ndarray) (sr target_sr target_channels : Z)
  : ndarray := wav.

(** A mono int16 waveform as the demo receives it. *)
Definition waveform (samples : list Z) : ndarray :=
  of_list int16 (inject_Z <$> samples).

Definition is_int16 (z : Z) : Prop := - 2 ^ 15 ≤ z < 2 ^ 15.

End Encodec.

(** * Properties *)

Import Np FreeVC SlowFast Conversion Encodec.

(** ** Arithmetic of the float idealisation *)

Section arithmetic.
Local Open Scope Z_scope.

Lemma Qdiv_inject_Z_pos (a : Z) (p : positive) :
  (inject_Z a / inject_Z (Z.pos p))%Q = (a # p).
Proof. unfold Qdiv, Qinv, Qmult, inject_Z. simpl. by rewrite Z.mul_1_r. Qed.

Lemma Qfloor_div (a b : Z) : 0 < b → Qfloor (inject_Z a / inject_Z b) = a / b.
Proof.
  intros Hb. destruct b as [|p|p]; try lia.
  by rewrite Qdiv_inject_Z_pos.
Qed.

Lemma Qceiling_div (a b : Z) :
  0 < b → Qceiling (inject_Z a / inject_Z b) = - ((- a) / b).
Proof.
  intros Hb. destruct b as [|p|p]; try lia.
  by rewrite Qdiv_inject_Z_pos.
Qed.

Lemma Qlt_bool_iff (x y : Q) : Qlt_bool x y = true ↔ (x < y)%Q.
Proof.
  unfold Qlt_bool. rewrite negb_true_iff, <- not_true_iff_false, Qle_bool_iff.
  split; [apply Qnot_le_lt | apply Qlt_not_le].
Qed.

Lemma range_one (steps step : Z) :
  0 < steps ≤ step → range 0 steps step = [0].
Proof.
  intros H. unfold range.
  replace ((steps - 0 + step - 1) / step) with 1; [done|].
  apply Z.div_unique with (steps - 1); lia.
Qed.

Lemma range_two (step : Z) :
  0 < step → range 0 (step + 1) step = [0; step].
Proof.
  intros H. unfold range.
  replace ((step + 1 - 0 + step - 1) / step) with 2.
  - simpl. f_equal. f_equal. lia.
  - apply Z.div_unique with 0; lia.
Qed.
End arithmetic.

(** ** FreeVC: an utterance shorter than one partial *)

Section short_asset.
Local Open Scope Z_scope.
Variables (hp : hparams) (rate : Q) (n_samples : Z).
Abbreviation spf := (samples_per_frame hp).
Abbreviation pnf := (partials_n_frames hp).
Abbreviation fs := (frame_step hp rate).
Hypothesis spf_pos : 0 < spf.
Hypothesis rate_nz : ¬ (rate == 0)%Q.
Hypothesis fs_range : 0 < fs ≤ pnf.
Hypothesis short : 0 ≤ n_samples < pnf * spf.

Lemma short_n_frames :
  let n_frames := Qceiling (inject_Z (n_samples + 1) / inject_Z spf) in
  1 ≤ n_frames ≤ pnf ∧ (n_frames = pnf → (pnf - 1) * spf ≤ n_samples).
Proof using spf_pos short.
  simpl. rewrite Qceiling_div by done.
  pose proof (Z.div_mod (- (n_samples + 1)) spf ltac:(lia)) as Hdm.
  pose proof (Z.mod_pos_bound (- (n_samples + 1)) spf spf_pos) as Hm.
  nia.
Qed.

(** When consecutive partials overlap by at most three quarters, a
    second partial over a short utterance is always under-covered. *)
Lemma short_second_unit_coverage :
  pnf ≤ 4 * fs →
  Qlt_bool (coverage n_samples (fs * spf, (fs + pnf) * spf)) (3 # 4) = true.
Proof using spf_pos short fs_range.
  intros Hov. apply Qlt_bool_iff. unfold coverage. simpl.
  replace ((fs + pnf) * spf - fs * spf) with (pnf * spf) by lia.
  assert (0 < pnf * spf) as Hw by nia.
  destruct (pnf * spf) as [|w|w] eqn:Ew; try lia.
  rewrite Qdiv_inject_Z_pos. unfold Qlt. simpl.
  nia.
Qed.

(** On a short utterance the slicing yields the first unit alone, or
    the first two units when the second one is covered well enough. *)
Lemma short_asset_cases :
  compute_partial_slices hp n_samples rate (3 # 4)
    = Ok ([(0, pnf * spf)], [(0, pnf)])
  ∨ (Qlt_bool (coverage n_samples (fs * spf, (fs + pnf) * spf)) (3 # 4) = false
     ∧ compute_partial_slices hp n_samples rate (3 # 4)
       = Ok ([(0, pnf * spf); (fs * spf, (fs + pnf) * spf)],
             [(0, pnf); (fs, fs + pnf)])).
Proof using spf_pos rate_nz fs_range short.
  unfold compute_partial_slices. simpl.
  destruct (Z.eqb_spec spf 0) as [E|_]; [lia|]. simpl.
  destruct (Qeq_bool rate 0) eqn:Er; [by apply Qeq_bool_iff in Er|]. simpl.
  destruct (Z.ltb_spec 0 fs) as [_|]; [|lia]. simpl.
  destruct (Z.leb_spec fs pnf) as [_|]; [|lia]. simpl.
  destruct short_n_frames as [Hnf Hlast].
  set (n_frames := Qceiling _) in *.
  destruct (decide (n_frames = pnf)) as [Heq|Hne].
  - replace (Z.max 1 (n_frames - pnf + fs + 1)) with (fs + 1) by lia.
    rewrite range_two by lia. simpl.
    replace ((0 + pnf) * spf) with (pnf * spf) by lia.
    destruct (Qlt_bool _ _) eqn:Ecov; simpl; [by left | by right].
  - rewrite range_one by lia. simpl.
    rewrite andb_false_r.
    replace ((0 + pnf) * spf) with (pnf * spf) by lia.
    by left.
Qed.

(** C1 (amended).  For an utterance shorter than one partial,
    [compute_partial_slices] with [min_coverage = 0.75] succeeds and
    always keeps the first unit [(0, partials_n_frames)] (whose
    waveform range [embed_utterance] zero-pads), whatever its
    coverage: the coverage test only ever drops a last unit that is
    not the only one.  When the frame step is at least a quarter of a
    partial (77 against 160 at the default rate 1.3), the result is
    exactly that single unit. *)
Theorem C1_short_asset_keeps_first_unit :
  ∃ wav_slices mel_slices,
    compute_partial_slices hp n_samples rate (3 # 4)
      = Ok (wav_slices, mel_slices)
    ∧ head wav_slices = Some (0, pnf * spf)
    ∧ head mel_slices = Some (0, pnf)
    ∧ (pnf ≤ 4 * fs →
       wav_slices = [(0, pnf * spf)] ∧ mel_slices = [(0, pnf)]).
Proof using spf_pos rate_nz fs_range short.
  destruct short_asset_cases as [Hone|[Hcov Htwo]].
  - exists [(0, pnf * spf)], [(0, pnf)]. by repeat split.
  - eexists _, _. split; [exact Htwo|]. do 2 (split; [reflexivity|]).
    intros Hov. by rewrite short_second_unit_coverage in Hcov.
Qed.

(** The padding of [embed_utterance] on such an utterance: the waveform
    is extended with zeros to one full partial, which is the only one
    embedded. *)
Lemma short_utterance_is_zero_padded
    (wav_to_mel_spectrogram : list R → list (list R))
    (smodel : list (list (list R)) → list (list R)) (wav : list R) :
  n_samples = Z.of_nat (length wav) → pnf ≤ 4 * fs →
  partial_embeddings hp wav_to_mel_spectrogram smodel wav rate (3 # 4)
  = bind (stack [slice_list
                   (wav_to_mel_spectrogram
                      (wav ++ replicate (Z.to_nat (pnf * spf - n_samples)) 0%R))
                   0 pnf])
         (λ mels, Ok (smodel mels, [(0, pnf * spf)])).
Proof using spf_pos rate_nz fs_range short.
  intros Hlen Hov. unfold partial_embeddings. rewrite <- Hlen.
  destruct short_asset_cases as [->|[Hcov _]].
  - simpl. destruct (Z.leb_spec n_samples (pnf * spf)); [done|lia].
  - by rewrite short_second_unit_coverage in Hcov.
Qed.
End short_asset.

(** The theorem at the FreeVC constants, the default rate 1.3 and an
    utterance of 1000 samples. *)
Lemma C1_short_asset_witness :
  ∃ wav_slices mel_slices,
    compute_partial_slices freevc_hparams 1000 (13 # 10) (3 # 4)
      = Ok (wav_slices, mel_slices)
    ∧ head wav_slices = Some (0, 160 * 160)%Z
    ∧ head mel_slices = Some (0, 160)%Z
    ∧ ((160 ≤ 4 * 77)%Z →
       wav_slices = [(0, 160 * 160)%Z] ∧ mel_slices = [(0, 160)%Z]).
Proof.
  apply (C1_short_asset_keeps_first_unit freevc_hparams (13 # 10) 1000).
  - reflexivity.
  - discriminate.
  - split; [reflexivity | discriminate].
  - split; [discriminate | reflexivity].
Defined.

(** C1 as stated fails: 1000 samples cover under 4% of the single
    25600-sample unit, far below 0.75, and the unit is kept. *)
Lemma C1_counterexample :
  ¬ spec_undersized_unit_policy freevc_hparams (13 # 10) 1000.
Proof.
  intros H. specialize (H _ _ eq_refl). apply H. by left.
Qed.

(** ** NumPy helpers *)

Section numpy_facts.
Local Open Scope Z_scope.

Lemma int_of_nonneg (x : Q) : (0 <= x)%Q → int_of x = Qfloor x.
Proof.
  destruct x as [n d]. unfold Qle, int_of, Qfloor. simpl. intros H.
  apply Z.quot_div_nonneg; lia.
Qed.

Lemma linspace_entry (stop num i : Z) :
  0 ≤ stop → 0 ≤ i < num →
  int_of (inject_Z 0 + inject_Z i * (inject_Z (stop - 0) / inject_Z (num - 1)))%Q
  = i * stop / (num - 1).
Proof.
  intros Hs Hi. rewrite Z.sub_0_r.
  destruct (decide (num - 1 = 0)) as [E|E].
  - rewrite E. replace i with 0 by lia. by destruct stop.
  - assert (0 < num - 1) as Hpos by lia.
    destruct (num - 1) as [|p|p] eqn:Ep; try lia.
    assert (inject_Z 0 + inject_Z i * (inject_Z stop / inject_Z (Z.pos p))
            == inject_Z (i * stop) / inject_Z (Z.pos p))%Q as Heq.
    { rewrite inject_Z_mult. field. discriminate. }
    rewrite int_of_nonneg.
    + rewrite Heq. by apply Qfloor_div.
    + rewrite Heq, Qdiv_inject_Z_pos. unfold Qle. simpl. nia.
Qed.

(** The indices [np.linspace(0, stop, num).astype(np.int_)] picks. *)
Lemma linspace_int_indices (stop num : Z) :
  0 ≤ stop → 0 ≤ num →
  linspace_int 0 stop num
  = Ok ((λ i, i * stop / (num - 1)) <$> seqZ 0 num).
Proof.
  intros Hs Hn. unfold linspace_int.
  destruct (Z.ltb_spec num 0); [lia|]. f_equal.
  apply list_fmap_ext. intros k i [-> Hk]%lookup_seqZ.
  apply linspace_entry; lia.
Qed.

Lemma linspace_index_range (stop num i : Z) :
  0 ≤ stop → 0 ≤ i < num → 0 ≤ i * stop / (num - 1) ≤ stop.
Proof.
  intros Hs Hi. destruct (decide (num - 1 = 0)) as [E|E].
  - rewrite E, Z.div_0_r. lia.
  - split.
    + apply Z.div_pos; nia.
    + apply Z.div_le_upper_bound; nia.
Qed.

Lemma linspace_index_increasing (stop num i j : Z) :
  0 ≤ i < j → j < num → num - 1 ≤ stop →
  i * stop / (num - 1) < j * stop / (num - 1).
Proof.
  intros Hij Hj Hstop.
  assert (i * stop / (num - 1) + 1 ≤ j * stop / (num - 1)); [|lia].
  rewrite <- (Z.div_add (i * stop) 1 (num - 1)) by lia.
  apply Z.div_le_mono; [lia|]. nia.
Qed.

Lemma linspace_index_monotone (stop num i j : Z) :
  0 ≤ stop → 0 ≤ i ≤ j → j < num →
  i * stop / (num - 1) ≤ j * stop / (num - 1).
Proof.
  intros Hs Hij Hj. destruct (decide (num - 1 = 0)) as [E|E].
  - rewrite E, !Z.div_0_r. lia.
  - apply Z.div_le_mono; [lia|nia].
Qed.

Lemma linspace_index_last (stop num : Z) :
  1 < num → (num - 1) * stop / (num - 1) = stop.
Proof. intros H. by rewrite Z.mul_comm, Z.div_mul by lia. Qed.

(** An index is the exact evenly spaced position rounded down. *)
Lemma linspace_index_near (stop num i : Z) :
  0 ≤ stop → 0 ≤ i < num →
  i * stop - (num - 1) ≤ i * stop / (num - 1) * (num - 1) ≤ i * stop.
Proof.
  intros Hs Hi. destruct (decide (num - 1 = 0)) as [E|E].
  - rewrite E, Z.div_0_r. lia.
  - pose proof (Z.div_mod (i * stop) (num - 1) E).
    pose proof (Z.mod_pos_bound (i * stop) (num - 1) ltac:(lia)). lia.
Qed.

(** [np.take] along axis 1 with the indices of [np.linspace]. *)
Lemma take_linspace (a : ndarray) (c t : Z) (rest : list Z) (num : Z) :
  shape a = c :: t :: rest → 0 ≤ num → (0 < num → 0 < t) →
  ∃ b,
    (let* indices := linspace_int 0 (t - 1) num in np_take a indices)%py = Ok b
    ∧ dtype_of b = dtype_of a
    ∧ shape b = c :: num :: rest
    ∧ ∀ ch i idx, 0 ≤ i < num →
        item b (ch :: i :: idx)
        = item a (ch :: i * (t - 1) / (num - 1) :: idx).
Proof.
  intros Hshape Hnum Ht.
  destruct (decide (num = 0)) as [->|Hnz].
  - unfold linspace_int, np_take. simpl. rewrite Hshape. simpl.
    eexists. split; [reflexivity|]. simpl. repeat split. intros; lia.
  - assert (0 ≤ t - 1) as Hstop by lia.
    rewrite linspace_int_indices by lia. simpl.
    unfold np_take. rewrite Hshape.
    set (indices := _ <$> seqZ 0 num).
    assert (forallb (λ i, (- t <=? i) && (i <? t)) indices = true) as ->.
    { apply Is_true_true, forallb_True, Forall_fmap, Forall_seqZ.
      intros i Hi. simpl.
      pose proof (linspace_index_range (t - 1) num i Hstop ltac:(lia)).
      apply Is_true_true, andb_true_iff. split; [apply Z.leb_le|apply Z.ltb_lt]; lia. }
    eexists. split; [reflexivity|]. simpl. split; [done|]. split.
    + unfold indices. rewrite length_fmap, length_seqZ. f_equal. f_equal. lia.
    + intros ch i idx Hi.
      assert (nth (Z.to_nat i) indices 0 = i * (t - 1) / (num - 1)) as ->.
      { apply nth_lookup_Some. unfold indices.
        rewrite list_lookup_fmap, lookup_seqZ_lt by lia. simpl.
        do 3 f_equal. lia. }
      pose proof (linspace_index_range (t - 1) num i Hstop ltac:(lia)).
      destruct (Z.ltb_spec (i * (t - 1) / (num - 1)) 0); [lia|done].
Qed.
End numpy_facts.

(** ** SlowFast: the two pathways *)

Section pathways.
Local Open Scope Z_scope.

Lemma pack_pathway_output_linspace (frames : ndarray) (alpha c t : Z)
    (rest : list Z) :
  shape frames = c :: t :: rest → 0 ≤ t → 0 < alpha →
  ∃ slow_pathway,
    pack_pathway_output frames alpha = Ok [slow_pathway; frames]
    ∧ shape slow_pathway = c :: t / alpha :: rest
    ∧ ∀ ch i idx, 0 ≤ i < t / alpha →
        0 ≤ i * (t - 1) / (t / alpha - 1) ≤ t - 1
        ∧ item slow_pathway (ch :: i :: idx)
          = item frames (ch :: i * (t - 1) / (t / alpha - 1) :: idx).
Proof.
  intros Hshape Ht Halpha. unfold pack_pathway_output, shape_at.
  rewrite Hshape. simpl.
  destruct (Z.eqb_spec alpha 0); [lia|]. simpl.
  assert (0 ≤ t / alpha) as Hn by (apply Z.div_pos; lia).
  assert (0 < t / alpha → 0 < t) as Hpos.
  { intros H. destruct (decide (t = 0)) as [->|]; [|lia].
    rewrite Z.div_0_l in H; lia. }
  destruct (take_linspace frames c t rest (t / alpha) Hshape Hn Hpos)
    as (b & Hb & _ & Hsh & Hitem).
  simpl in Hb. destruct (linspace_int 0 (t - 1) (t / alpha)); [|done].
  simpl in *. rewrite Hb. simpl.
  exists b. split; [done|]. split; [done|].
  intros ch i idx Hi. split; [|by apply Hitem].
  apply linspace_index_range; lia.
Qed.

(** C5 (amended).  For a clip with [t] time steps and a positive
    [alpha], the slow pathway of [pack_pathway_output] has [t // alpha]
    time steps, each one a frame of the fast pathway unchanged.  The
    frames are taken at strictly increasing positions that start at the
    first frame and (with two or more steps) end at the last one; every
    position is the evenly spaced one, [i * (t - 1) / (t // alpha - 1)],
    rounded down to a frame or the frame before: the positions of
    [np.linspace], not the multiples of [alpha]. *)
Theorem C5_slow_pathway_linspace (frames : ndarray) (alpha c t : Z)
    (rest : list Z) :
  shape frames = c :: t :: rest → 0 ≤ t → 0 < alpha →
  ∃ (slow_pathway : ndarray) (position : Z → Z),
    pack_pathway_output frames alpha = Ok [slow_pathway; frames]
    ∧ shape slow_pathway = c :: t / alpha :: rest
    ∧ (∀ ch i idx, 0 ≤ i < t / alpha →
         item slow_pathway (ch :: i :: idx)
         = item frames (ch :: position i :: idx))
    ∧ (∀ i, 0 ≤ i < t / alpha → 0 ≤ position i < t)
    ∧ (∀ i j, 0 ≤ i < j → j < t / alpha → position i < position j)
    ∧ (0 < t / alpha → position 0 = 0)
    ∧ (1 < t / alpha → position (t / alpha - 1) = t - 1)
    ∧ (∀ i, 0 ≤ i < t / alpha →
         i * (t - 1) - (t / alpha - 1)
         ≤ position i * (t / alpha - 1) ≤ i * (t - 1)).
Proof.
  intros Hshape Ht Halpha.
  destruct (pack_pathway_output_linspace frames alpha c t rest
              Hshape Ht Halpha) as (slow & Hpack & Hsh & Hitem).
  assert (t / alpha ≤ t) as Hn by (apply Z.div_le_upper_bound; nia).
  exists slow, (λ i, i * (t - 1) / (t / alpha - 1)).
  split; [done|]. split; [done|]. split; [|split; [|split; [|split; [|split]]]].
  - intros ch i idx Hi. by destruct (Hitem ch i idx Hi) as [_ ->].
  - intros i Hi. destruct (Hitem 0 i [] Hi) as [? _]. lia.
  - intros i j Hij Hj. apply linspace_index_increasing; lia.
  - intros _. by rewrite Z.mul_0_l.
  - intros Hmany. by apply linspace_index_last.
  - intros i Hi. apply linspace_index_near; lia.
Qed.
End pathways.

(** The amended statement at a ramp clip of 32 time steps, alpha = 4. *)
Lemma C5_slow_pathway_witness :
  ∃ (slow_pathway : ndarray) (position : Z → Z),
    pack_pathway_output (ramp_clip 32) 4 = Ok [slow_pathway; ramp_clip 32]
    ∧ shape slow_pathway = [1; 32 / 4; 1; 1]%Z
    ∧ (∀ ch i idx, (0 ≤ i < 32 / 4)%Z →
         item slow_pathway (ch :: i :: idx)
         = item (ramp_clip 32) (ch :: position i :: idx))
    ∧ (∀ i, (0 ≤ i < 32 / 4)%Z → (0 ≤ position i < 32)%Z)
    ∧ (∀ i j, (0 ≤ i < j)%Z → (j < 32 / 4)%Z → (position i < position j)%Z)
    ∧ ((0 < 32 / 4)%Z → position 0%Z = 0%Z)
    ∧ ((1 < 32 / 4)%Z → position (32 / 4 - 1)%Z = (32 - 1)%Z)
    ∧ (∀ i, (0 ≤ i < 32 / 4)%Z →
         (i * (32 - 1) - (32 / 4 - 1)
          ≤ position i * (32 / 4 - 1) ≤ i * (32 - 1))%Z).
Proof.
  apply (C5_slow_pathway_linspace (ramp_clip 32) 4 1 32 [1; 1]%Z).
  - reflexivity.
  - discriminate.
  - reflexivity.
Defined.

(** C5 as stated fails: of 32 frames with alpha = 4 the fourth slow
    frame is frame 13 of the fast pathway, not frame 12. *)
Lemma C5_counterexample :
  ∃ slow_pathway,
    pack_pathway_output (ramp_clip 32) 4 = Ok [slow_pathway; ramp_clip 32]
    ∧ item slow_pathway [0; 3; 0; 0]%Z = 13%Q
    ∧ item (ramp_clip 32) [0; 3 * 4; 0; 0]%Z = 12%Q
    ∧ ¬ stride_subsampled 4 (ramp_clip 32) slow_pathway.
Proof.
  eexists. split; [reflexivity|]. split; [reflexivity|]. split; [reflexivity|].
  intros H. destruct (H 32%Z eq_refl) as [_ Hitem].
  specialize (Hitem 0%Z 3%Z [0; 0]%Z ltac:(done)).
  vm_compute in Hitem. discriminate.
Qed.

(** ** SlowFast: the shape of the pre-processed clip *)

Section preprocessing.
Local Open Scope Z_scope.
Variable cv2_resize : ndarray → Z → Z → result ndarray.
Hypothesis resize_ok : resize_contract cv2_resize.
Local Arguments Qfloor : simpl never.
Local Arguments Qceiling : simpl never.
Local Arguments Qmult : simpl never.
Local Arguments Qdiv : simpl never.
Local Arguments inject_Z : simpl never.

Lemma comprehension_Forall {A B : Type} (f : A → result B)
    (P : A → Prop) (R : B → Prop) (l : list A) :
  (∀ x, P x → ∃ y, f x = Ok y ∧ R y) → Forall P l →
  ∃ ys, comprehension f l = Ok ys ∧ Forall R ys ∧ length ys = length l.
Proof.
  intros Hf. induction 1 as [|x l Hx _ (ys & Hys & HR & Hlen)]; simpl.
  - by exists [].
  - destruct (Hf x Hx) as (y & -> & Hy). simpl. rewrite Hys. simpl.
    exists (y :: ys). repeat split; [by constructor | simpl; lia].
Qed.

Lemma scaled_side (a b size : Z) :
  0 < b ≤ a → 0 < size →
  size ≤ Qfloor ((inject_Z a / inject_Z b) * inject_Z size)%Q.
Proof.
  intros Hab Hs.
  assert ((inject_Z a / inject_Z b) * inject_Z size
          == inject_Z (a * size) / inject_Z b)%Q as ->.
  { rewrite inject_Z_mult. destruct b as [|p|p]; try lia.
    field. discriminate. }
  rewrite Qfloor_div by lia. apply Z.div_le_lower_bound; nia.
Qed.

Lemma scale_short_side_shape (size : Z) (frame : ndarray) :
  0 < size → bgr_image frame →
  ∃ scaled, scale_short_side cv2_resize size (Some frame) = Ok scaled
            ∧ at_least size scaled.
Proof using resize_ok.
  intros Hsize (h & w & Hshape & Hh & Hw).
  unfold scale_short_side. simpl. unfold shape_at. rewrite Hshape. simpl.
  destruct ((w <=? h) && (w =? size) || (h <=? w) && (h =? size)) eqn:Hsame.
  - exists frame. split; [done|]. exists h, w. split; [done|].
    apply orb_true_iff in Hsame as [[H1 H2]%andb_true_iff|[H1 H2]%andb_true_iff];
      apply Z.leb_le in H1; apply Z.eqb_eq in H2; lia.
  - destruct (Z.ltb_spec w h) as [Hlt|Hge].
    + destruct (Z.eqb_spec w 0); [lia|]. cbn [bind].
      pose proof (scaled_side h w size ltac:(lia) Hsize) as Hnew.
      destruct (resize_ok frame h w size _ Hshape Hh Hw Hsize
                  ltac:(eapply Z.lt_le_trans; [exact Hsize|exact Hnew]))
        as (g & -> & Hg).
      simpl. eexists. split; [reflexivity|]. eexists _, _. simpl.
      split; [exact Hg|]. lia.
    + destruct (Z.eqb_spec h 0); [lia|]. cbn [bind].
      pose proof (scaled_side w h size ltac:(lia) Hsize) as Hnew.
      destruct (resize_ok frame h w _ size Hshape Hh Hw
                  ltac:(eapply Z.lt_le_trans; [exact Hsize|exact Hnew]) Hsize)
        as (g & -> & Hg).
      simpl. eexists. split; [reflexivity|]. eexists _, _. simpl.
      split; [exact Hg|]. lia.
Qed.

Lemma center_offset (side size : Z) :
  0 ≤ size ≤ side →
  let offset := Qceiling (inject_Z (side - size) / inject_Z 2) in
  slice_pos side offset = offset
  ∧ slice_pos side (offset + size) = offset + size.
Proof.
  intros H. simpl. rewrite Qceiling_div by lia.
  set (offset := - (- (side - size) / 2)).
  assert (0 ≤ offset ∧ offset + size ≤ side) as [H0 H1].
  { unfold offset.
    pose proof (Z.div_mod (- (side - size)) 2 ltac:(lia)).
    pose proof (Z.mod_pos_bound (- (side - size)) 2 ltac:(lia)). lia. }
  unfold slice_pos.
  destruct (Z.ltb_spec offset 0); [lia|].
  destruct (Z.ltb_spec (offset + size) 0); lia.
Qed.

Lemma center_crop_shape (size : Z) (frame : ndarray) :
  0 < size → at_least size frame →
  ∃ cropped, center_crop size frame = Ok cropped
             ∧ shape cropped = [size; size; 3].
Proof.
  intros Hsize (h & w & Hshape & Hh & Hw).
  unfold center_crop, shape_at, getitem_hw. rewrite Hshape. simpl.
  destruct (center_offset h size ltac:(lia)) as [-> ->].
  destruct (center_offset w size ltac:(lia)) as [-> ->].
  set (y := Qceiling _). set (x := Qceiling _).
  replace (y `max` (y + size) - y) with size by lia.
  replace (x `max` (x + size) - x) with size by lia.
  rewrite Z.eqb_refl. simpl. eexists. split; reflexivity.
Qed.

Lemma array_shape (l : list ndarray) (s : list Z) :
  l ≠ [] → Forall (λ a, shape a = s) l →
  ∃ b, array l = Ok b ∧ shape b = Z.of_nat (length l) :: s.
Proof.
  intros Hne Hall. destruct l as [|a l]; [done|]. unfold array.
  assert (forallb (λ b, shape_eqb (shape b) (shape a)) (a :: l) = true) as ->.
  { apply Is_true_true, forallb_True. eapply Forall_impl; [exact Hall|].
    intros b Hb. simpl in Hb. unfold shape_eqb.
    apply bool_decide_pack. rewrite Hb. by inversion Hall. }
  eexists. split; [reflexivity|]. simpl. by inversion Hall; subst.
Qed.

Lemma normalize_shape (a : ndarray) (t h w : Z) (mean std : list Q) :
  shape a = [t; h; w; 3] → length mean = 3%nat → length std = 3%nat →
  ∃ b, normalize a mean std = Ok b ∧ shape b = [t; h; w; 3].
Proof.
  intros Hshape Hmean Hstd. unfold normalize, binop, broadcast_shapes.
  assert (shape (if bool_decide (dtype_of a = uint8)
                 then div_scalar (astype float32 a) 255 else a)
          = [t; h; w; 3]) as Hs by (by case_bool_decide).
  rewrite Hs. simpl. rewrite Hmean, Hstd. simpl.
  eexists. split; reflexivity.
Qed.

(** The pipeline of [process_inputs] on well-formed frames. *)
Lemma process_inputs_shapes (frames : list ndarray)
    (num_frames crop_size : Z) (mean std : list Q) :
  frames ≠ [] → Forall bgr_image frames →
  0 < crop_size → 0 ≤ num_frames →
  length mean = 3%nat → length std = 3%nat →
  ∃ slow fast,
    process_inputs cv2_resize (Some <$> frames)
                   num_frames crop_size mean std = Ok [slow; fast]
    ∧ shape fast = [1; 3; num_frames; crop_size; crop_size]
    ∧ shape slow = [1; 3; num_frames / 4; crop_size; crop_size].
Proof using resize_ok.
  intros Hne Hframes Hsize Hnum Hmean Hstd. unfold process_inputs.
  destruct (comprehension_Forall (scale_short_side cv2_resize crop_size)
              (λ f, ∃ g, f = Some g ∧ bgr_image g) (at_least crop_size)
              (Some <$> frames)) as (scaled & -> & Hscaled & Hlen1).
  { intros ? (g & -> & Hg). by apply scale_short_side_shape. }
  { apply Forall_fmap. eapply Forall_impl; [exact Hframes|].
    intros g Hg. by exists g. }
  simpl.
  destruct (comprehension_Forall (center_crop crop_size)
              (at_least crop_size)
              (λ a, shape a = [crop_size; crop_size; 3]) scaled)
    as (cropped & -> & Hcropped & Hlen2); [|done|].
  { intros a Ha. by apply center_crop_shape. }
  simpl. rewrite length_fmap in Hlen1.
  assert (cropped ≠ []) as Hne'.
  { intros ->. destruct frames; [done|]. simpl in *. lia. }
  destruct (array_shape cropped _ Hne' Hcropped) as (stacked & -> & Hst).
  simpl.
  destruct (normalize_shape (div_scalar (astype float32 stacked) 255)
              _ _ _ mean std Hst Hmean Hstd) as (normed & -> & Hnormed).
  simpl. unfold transpose. rewrite Hnormed. simpl.
  set (tr := {| dtype_of := _ |}).
  assert (0 < Z.of_nat (length cropped)) as Ht.
  { destruct cropped; [done|]. simpl. lia. }
  destruct (take_linspace tr 3 (Z.of_nat (length cropped))
              [crop_size; crop_size] num_frames eq_refl Hnum (λ _, Ht))
    as (sampled & Hsampled & _ & Hsh & _).
  simpl in Hsampled.
  destruct (linspace_int 0 _ num_frames) as [indices|]; [|done].
  simpl in *. rewrite Hsampled. simpl.
  destruct (pack_pathway_output_linspace sampled 4 3 num_frames
              [crop_size; crop_size] Hsh Hnum ltac:(lia))
    as (slow & -> & Hslow & _).
  simpl. eexists _, _. split; [reflexivity|]. simpl.
  by rewrite Hsh, Hslow.
Qed.

(** C3.  For a non-empty list of frames with both spatial sides at
    least [crop_size], [process_inputs] returns exactly two arrays:
    the fast pathway of shape
    [(1, 3, num_frames, crop_size, crop_size)] and the slow pathway of
    shape [(1, 3, num_frames // 4, crop_size, crop_size)]. *)
Theorem C3_process_inputs_exact_shapes (frames : list ndarray)
    (num_frames crop_size : Z) (mean std : list Q) :
  frames ≠ [] → Forall (at_least crop_size) frames →
  0 < crop_size → 0 ≤ num_frames →
  length mean = 3%nat → length std = 3%nat →
  ∃ slow fast,
    process_inputs cv2_resize (Some <$> frames)
                   num_frames crop_size mean std = Ok [slow; fast]
    ∧ shape fast = [1; 3; num_frames; crop_size; crop_size]
    ∧ shape slow = [1; 3; num_frames / 4; crop_size; crop_size].
Proof using resize_ok.
  intros Hne Hframes Hsize. apply process_inputs_shapes; [done| |done].
  eapply Forall_impl; [exact Hframes|].
  intros f (h & w & Hs & Hh & Hw). exists h, w. split; [done|lia].
Qed.
End preprocessing.

(** ** Sorting: the sample behaviours of [np.argsort] *)

Section sorting.
Context {A : Type} (leb : A → A → bool).
Hypothesis leb_total : ∀ x y, leb x y = true ∨ leb y x = true.
Hypothesis leb_trans : ∀ x y z, leb x y = true → leb y z = true → leb x z = true.

Lemma insert_perm (x : A) (l : list A) : insert leb x l ≡ₚ x :: l.
Proof.
  induction l as [|y l IH]; simpl; [done|].
  destruct (leb x y); [done|]. rewrite IH. apply Permutation_swap.
Qed.

Lemma isort_perm (l : list A) : isort leb l ≡ₚ l.
Proof.
  induction l as [|x l IH]; simpl; [done|].
  by rewrite insert_perm, IH.
Qed.

Lemma insert_sorted (x : A) (l : list A) :
  StronglySorted (λ a b, leb a b = true) l →
  StronglySorted (λ a b, leb a b = true) (insert leb x l).
Proof using leb_total leb_trans.
  induction 1 as [|y l Hl IH Hy]; simpl.
  - repeat constructor.
  - destruct (leb x y) eqn:Hxy.
    + constructor; [by constructor|]. constructor; [done|].
      eapply Forall_impl; [exact Hy|]. intros z Hz. by eapply leb_trans.
    + constructor; [done|]. rewrite insert_perm. constructor; [|done].
      destruct (leb_total x y); congruence.
Qed.

Lemma isort_sorted (l : list A) :
  StronglySorted (λ a b, leb a b = true) (isort leb l).
Proof using leb_total leb_trans.
  induction l; simpl; [constructor | by apply insert_sorted].
Qed.

Lemma StronglySorted_lookup (R : A → A → Prop) (l : list A) (a b : nat) (x y : A) :
  StronglySorted R l → (a < b)%nat → l !! a = Some x → l !! b = Some y → R x y.
Proof.
  intros Hl. revert a b. induction Hl as [|z l Hl IH Hz]; intros a b Hab Ha Hb.
  - done.
  - destruct b as [|b]; [lia|]. simpl in Hb. destruct a as [|a]; simpl in Ha.
    + injection Ha as ->. rewrite Forall_forall in Hz.
      apply Hz. by eapply list_elem_of_lookup_2.
    + eapply IH; [|done..]. lia.
Qed.
End sorting.

Section argsort_instances.
Lemma zip_seq_lookup {A : Type} (row : list A) (x : A) (i : nat) :
  (x, i) ∈ zip row (seq 0 (length row)) → row !! i = Some x.
Proof.
  intros [k Hk]%list_elem_of_lookup_1.
  apply lookup_zip_with_Some in Hk as (x' & i' & [= -> ->] & Hx & Hi).
  apply lookup_seq in Hi as [-> _]. done.
Qed.

Lemma argsort_by_contract (leb : Q * nat → Q * nat → bool) :
  (∀ p q, leb p q = true ∨ leb q p = true) →
  (∀ p q r, leb p q = true → leb q r = true → leb p r = true) →
  (∀ p q, leb p q = true → (fst p <= fst q)%Q) →
  argsort_contract (argsort_by leb).
Proof.
  intros Htotal Htrans Hkey row. unfold argsort_by.
  set (pairs := zip row (seq 0 (length row))). split.
  - rewrite isort_perm. unfold pairs. rewrite snd_zip; [done|].
    by rewrite length_seq.
  - intros a b i j Hab Ha Hb.
    rewrite list_lookup_fmap in Ha, Hb.
    destruct (isort leb pairs !! a) as [[x i']|] eqn:Ea; [|done].
    destruct (isort leb pairs !! b) as [[y j']|] eqn:Eb; [|done].
    simpl in Ha, Hb. injection Ha as ->. injection Hb as ->.
    assert (row !! i = Some x) as Hx.
    { apply zip_seq_lookup. fold pairs. rewrite <- (isort_perm leb).
      by eapply list_elem_of_lookup_2. }
    assert (row !! j = Some y) as Hy.
    { apply zip_seq_lookup. fold pairs. rewrite <- (isort_perm leb).
      by eapply list_elem_of_lookup_2. }
    rewrite (nth_lookup_Some _ _ _ _ Hx), (nth_lookup_Some _ _ _ _ Hy).
    apply (Hkey (x, i) (y, j)).
    eapply (StronglySorted_lookup (λ p q, leb p q = true)
              (isort leb pairs) a b (x, i) (y, j)); [|done..].
    by apply isort_sorted.
Qed.

Lemma Qeq_bool_true (x y : Q) : Qeq_bool x y = true ↔ (x == y)%Q.
Proof. apply Qeq_bool_iff. Qed.

Lemma key_order_cases (leb : Q * nat → Q * nat → bool) (cmp : nat → nat → bool) :
  (∀ p q, leb p q
          = Qlt_bool (fst p) (fst q) || Qeq_bool (fst p) (fst q) && cmp (snd p) (snd q)) →
  (∀ i j, cmp i j = true ∨ cmp j i = true) →
  (∀ i j k, cmp i j = true → cmp j k = true → cmp i k = true) →
  argsort_contract (argsort_by leb).
Proof.
  intros Hleb Hctot Hctrans. apply argsort_by_contract.
  - intros [x i] [y j]. rewrite !Hleb. simpl.
    destruct (Qlt_le_dec x y) as [Hlt|Hle].
    { left. apply orb_true_iff. left. by apply Qlt_bool_iff. }
    destruct (Qlt_le_dec y x) as [Hlt|Hle'].
    { right. apply orb_true_iff. left. by apply Qlt_bool_iff. }
    assert (x == y)%Q as Heq by (by apply Qle_antisym).
    destruct (Hctot i j) as [H|H]; [left|right];
      apply orb_true_iff; right; apply andb_true_iff; split; try done;
      apply Qeq_bool_true; [done | by symmetry].
  - intros [x i] [y j] [z k]. rewrite !Hleb. simpl.
    rewrite !orb_true_iff, !andb_true_iff, !Qlt_bool_iff, !Qeq_bool_true.
    intros [H1|[H1 H1']] [H2|[H2 H2']].
    + left. by etrans.
    + left. by rewrite <- H2.
    + left. by rewrite H1.
    + right. split; [by etrans | by eapply Hctrans].
  - intros [x i] [y j]. rewrite Hleb. simpl.
    rewrite orb_true_iff, andb_true_iff, Qlt_bool_iff, Qeq_bool_true.
    intros [H|[H _]]; [by apply Qlt_le_weak | by rewrite H; apply Qle_refl].
Qed.

Lemma argsort_stable_contract : argsort_contract argsort_stable.
Proof.
  apply (key_order_cases _ Nat.leb); [done|..].
  - intros i j. rewrite !Nat.leb_le. lia.
  - intros i j k. rewrite !Nat.leb_le. lia.
Qed.

Lemma exp_like_pos (x : Q) : (0 < exp_like x)%Q.
Proof.
  unfold exp_like. destruct (Qle_bool 0 x) eqn:Hx.
  - apply Qle_bool_iff in Hx. lra.
  - assert (x < 0)%Q
      by (apply Qnot_le_lt; rewrite <- Qle_bool_iff; congruence).
    apply Qlt_shift_div_l; lra.
Qed.

Lemma resize_nearest_contract : resize_contract resize_nearest.
Proof.
  intros frame h w nw nh Hshape Hh Hw Hnw Hnh. unfold resize_nearest.
  rewrite Hshape.
  destruct (Z.ltb_spec 0 h), (Z.ltb_spec 0 w), (Z.ltb_spec 0 nw),
    (Z.ltb_spec 0 nh); try lia.
  simpl. eexists. split; reflexivity.
Qed.
End argsort_instances.

(** ** SlowFast: ranking the classes *)

Lemma comprehension_length {A B : Type} (f : A → result B) (l : list A)
    (ys : list B) :
  comprehension f l = Ok ys → length ys = length l.
Proof.
  revert ys. induction l as [|x l IH]; simpl; intros ys H.
  - by injection H as <-.
  - destruct (f x); [|done]. simpl in H.
    destruct (comprehension f l); [|done]. simpl in H.
    injection H as <-. simpl. f_equal. by apply IH.
Qed.

Lemma comprehension_elem_of {A B : Type} (f : A → result B) (l : list A)
    (ys : list B) (y : B) :
  comprehension f l = Ok ys → y ∈ ys → ∃ x, x ∈ l ∧ f x = Ok y.
Proof.
  revert ys. induction l as [|x l IH]; simpl; intros ys H Hy.
  - injection H as <-. by apply elem_of_nil in Hy.
  - destruct (f x) as [z|] eqn:Hz; [|done]. simpl in H.
    destruct (comprehension f l) as [zs|]; [|done]. simpl in H.
    injection H as <-. apply elem_of_cons in Hy as [->|Hy].
    + exists x. split; [by left|done].
    + destruct (IH zs eq_refl Hy) as (x' & Hx' & Hfx').
      exists x'. split; [by right|done].
Qed.

Lemma labels_of_ok (m : gmap Z string) (n : nat) (l : list nat) :
  (∀ i, (i < n)%nat → is_Some (m !! Z.of_nat i)) →
  Forall (λ i, (i < n)%nat) l →
  ∃ names, labels_of m l = Ok names
           ∧ length names = length l
           ∧ Forall (λ name, ∃ i, (i < n)%nat ∧ m !! Z.of_nat i = Some name)
                    names.
Proof.
  intros Hm Hl. unfold labels_of.
  destruct (comprehension_Forall
              (λ i : nat, match m !! Z.of_nat i with
                          | Some name => Ok name
                          | None => Raise KeyError
                          end)
              (λ i, (i < n)%nat)
              (λ name, ∃ i, (i < n)%nat ∧ m !! Z.of_nat i = Some name) l)
    as (names & Hnames & Hall & Hlen); [|done|by exists names].
  intros i Hi. destruct (Hm i Hi) as [name Hname].
  rewrite Hname. exists name. split; [done|]. by exists i.
Qed.

Lemma sample_labels_cover (i : nat) :
  (i < 7)%nat → is_Some (sample_labels !! Z.of_nat i).
Proof.
  intros Hi. do 7 (destruct i as [|i]; [by eexists|]). lia.
Qed.

Section ieee_order.
Import Ieee.

Lemma is_nan_negate (x : fp) : is_nan (negate x) = is_nan x.
Proof. by destruct x. Qed.

Lemma fp_leb_negate (x y : fp) : fp_leb (negate x) (negate y) = fp_leb y x.
Proof.
  destruct x as [p|[]|], y as [q|[]|]; try done. simpl.
  apply eq_true_iff_eq. rewrite !Qle_bool_iff. split; intros H; lra.
Qed.

(** Ascending negated probabilities are descending probabilities. *)
Lemma sorts_before_negate (p q : fp) :
  sorts_before (negate p) (negate q) = true → ranks_no_lower p q.
Proof.
  unfold sorts_before, ranks_no_lower.
  by rewrite is_nan_negate, fp_leb_negate, orb_true_iff.
Qed.

Lemma sorts_before_total (x y : fp) :
  sorts_before x y = true ∨ sorts_before y x = true.
Proof.
  destruct x as [p|[]|], y as [q|[]|]; try (by left); try (by right).
  unfold sorts_before. simpl. rewrite !Qle_bool_iff.
  destruct (Qlt_le_dec q p); [right|left]; lra.
Qed.

Lemma sorts_before_trans (x y z : fp) :
  sorts_before x y = true → sorts_before y z = true →
  sorts_before x z = true.
Proof.
  destruct x as [p|[]|], y as [q|[]|], z as [r|[]|]; try done.
  unfold sorts_before. simpl. rewrite !Qle_bool_iff. intros; lra.
Qed.

Lemma sample_exp_special : exp_special sample_exp.
Proof.
  split.
  - intros x Hx. simpl. by rewrite (proj2 (Qle_bool_iff 710 x) Hx).
  - intros x Hx. simpl. destruct (Qle_bool 710 x) eqn:H.
    + apply Qle_bool_iff in H. lra.
    + exists (exp_like x). split; [done|].
      apply Qlt_le_weak, exp_like_pos.
Qed.

Lemma sample_sum_special : sum_special sample_sum.
Proof.
  intros l Hin Hall. unfold sample_sum.
  induction Hall as [|v l Hv Hall IH]; [by apply elem_of_nil in Hin|].
  cbn [foldr].
  assert (foldr sample_add (Finite 0) l = Infinity false
          ∨ ∃ y, foldr sample_add (Finite 0) l = Finite y) as Htail.
  { clear IH Hin. induction Hall as [|w l Hw _ IHl]; [right; by eexists|].
    cbn [foldr].
    destruct Hw as [->|[y [-> _]]], IHl as [->|[z ->]];
      simpl; eauto. }
  apply elem_of_cons in Hin as [<-|Hin].
  - by destruct Htail as [->|[z ->]].
  - rewrite (IH Hin). by destruct Hv as [->|[y [-> _]]].
Qed.

Lemma sample_divide_special : divide_special sample_divide.
Proof. by split. Qed.

Lemma sample_argsort_nan_last : argsort_nan_last sample_argsort.
Proof.
  intros row. unfold sample_argsort.
  set (leb := λ p q : fp * nat, sorts_before (fst p) (fst q)).
  set (pairs := zip row (seq 0 (length row))).
  assert (∀ p q, leb p q = true ∨ leb q p = true) as Htotal
    by (intros p q; apply sorts_before_total).
  assert (∀ p q r, leb p q = true → leb q r = true → leb p r = true)
    as Htrans by (intros p q r; apply sorts_before_trans).
  split.
  - rewrite isort_perm. unfold pairs. rewrite snd_zip; [done|].
    by rewrite length_seq.
  - intros a b i j Hab Ha Hb.
    rewrite list_lookup_fmap in Ha, Hb.
    destruct (isort leb pairs !! a) as [[x i']|] eqn:Ea; [|done].
    destruct (isort leb pairs !! b) as [[y j']|] eqn:Eb; [|done].
    simpl in Ha, Hb. injection Ha as ->. injection Hb as ->.
    assert (row !! i = Some x) as Hx.
    { apply zip_seq_lookup. fold pairs. rewrite <- (isort_perm leb).
      by eapply list_elem_of_lookup_2. }
    assert (row !! j = Some y) as Hy.
    { apply zip_seq_lookup. fold pairs. rewrite <- (isort_perm leb).
      by eapply list_elem_of_lookup_2. }
    rewrite (nth_lookup_Some _ _ _ _ Hx), (nth_lookup_Some _ _ _ _ Hy).
    apply (StronglySorted_lookup (λ p q, leb p q = true)
             (isort leb pairs) a b (x, i) (y, j)); [|done..].
    by apply isort_sorted.
Qed.
End ieee_order.

Section ranking.
Import Ieee.
Variable exp : fp → fp.
Variable np_sum : list fp → fp.
Variable divide : fp → fp → fp.
Variable argsort : list fp → list nat.
Hypothesis exp_ok : exp_special exp.
Hypothesis sum_ok : sum_special np_sum.
Hypothesis divide_ok : divide_special divide.
Hypothesis argsort_ok : argsort_nan_last argsort.

(** The probabilities of a batch with one row whose first score makes
    [np.exp] overflow: NaN for that class, zero for all others. *)
Lemma overflow_probabilities (top : Q) (others : list Q) :
  (710 <= top)%Q → Forall (λ x, x <= 80)%Q others →
  softmax exp np_sum divide [Finite <$> top :: others]
  = [NaN :: (const (Finite 0) <$> others)].
Proof using exp_ok sum_ok divide_ok.
  intros Htop Hothers. unfold softmax.
  destruct exp_ok as [Hover Hfinite]. destruct divide_ok as [Hnan Hzero].
  assert (np_sum (exp <$> concat [Finite <$> top :: others]) = Infinity false)
    as ->.
  { cbn [concat]. rewrite app_nil_r, !fmap_cons, (Hover top Htop).
    apply sum_ok; [by left|].
    constructor; [by left|].
    rewrite <- list_fmap_compose. apply Forall_fmap.
    eapply Forall_impl; [exact Hothers|].
    intros x Hx. simpl. right. by apply Hfinite. }
  rewrite !fmap_cons, fmap_nil, (Hover top Htop), Hnan. do 2 f_equal.
  rewrite <- list_fmap_compose. apply Forall_fmap_ext.
  eapply Forall_impl; [exact Hothers|].
  intros x Hx. simpl. destruct (Hfinite x Hx) as (y & -> & _). apply Hzero.
Qed.

(** A NaN key among finite ones is sorted to the very end. *)
Lemma nan_key_is_last (keys : list fp) :
  Forall (λ k, is_nan k = false) keys →
  argsort (NaN :: keys) !! length keys = Some 0%nat.
Proof using argsort_ok.
  intros Hkeys. destruct (argsort_ok (NaN :: keys)) as [Hperm Hsorted].
  assert (0%nat ∈ argsort (NaN :: keys)) as [a Ha]%list_elem_of_lookup_1.
  { rewrite Hperm. apply elem_of_seq. simpl. lia. }
  assert (length (argsort (NaN :: keys)) = S (length keys)) as Hlen
    by (by rewrite (Permutation_length Hperm), length_seq).
  assert (a < S (length keys))%nat as Hbound
    by (rewrite <- Hlen; by eapply lookup_lt_Some).
  destruct (decide (a = length keys)) as [<-|Hne]; [done|].
  exfalso.
  destruct (lookup_lt_is_Some_2 (argsort (NaN :: keys)) (S a)) as [j Hj];
    [lia|].
  assert (j ≠ 0%nat) as Hj0.
  { intros ->.
    assert (NoDup (argsort (NaN :: keys))) as Hnd
      by (rewrite Hperm; apply NoDup_seq).
    pose proof (NoDup_lookup _ _ _ _ Hnd Ha Hj). lia. }
  assert (j < S (length keys))%nat as Hjn.
  { apply list_elem_of_lookup_2 in Hj. rewrite Hperm in Hj.
    apply elem_of_seq in Hj. simpl in Hj. lia. }
  specialize (Hsorted a (S a) 0%nat j ltac:(lia) Ha Hj).
  destruct j as [|j]; [done|]. simpl in Hsorted.
  destruct (lookup_lt_is_Some_2 keys j ltac:(lia)) as [k Hk].
  rewrite (nth_lookup_Some _ _ _ _ Hk) in Hsorted.
  rewrite Forall_forall in Hkeys.
  specialize (Hkeys k (list_elem_of_lookup_2 _ _ _ Hk)).
  unfold sorts_before in Hsorted. rewrite Hkeys in Hsorted. done.
Qed.

(** With more than five classes, a class whose probability is NaN
    while all others are zero is not among the five that [classify]
    looks up. *)
Lemma overflow_class_dropped (others : list Q) :
  (5 ≤ length others)%nat →
  0%nat ∉ take 5 (argsort (negate <$> NaN :: (const (Finite 0) <$> others))).
Proof using argsort_ok.
  intros Hmany [a [Ha Ha5]]%elem_of_take.
  rewrite fmap_cons in Ha. cbn [negate] in Ha.
  set (keys := negate <$> (const (Finite 0) <$> others)) in Ha.
  assert (argsort (NaN :: keys) !! length keys = Some 0%nat) as Hlast.
  { apply nan_key_is_last. unfold keys.
    rewrite <- list_fmap_compose. by apply Forall_fmap, Forall_true. }
  assert (NoDup (argsort (NaN :: keys))) as Hnd.
  { destruct (argsort_ok (NaN :: keys)) as [-> _]. apply NoDup_seq. }
  pose proof (NoDup_lookup _ _ _ _ Hnd Ha Hlast) as ->.
  unfold keys in Ha5. rewrite !length_fmap in Ha5. lia.
Qed.

End ranking.



(** ** SlowFast: the whole of [run_inference] *)

Section inference.
Local Open Scope Z_scope.
Variable cv2_resize : ndarray → Z → Z → result ndarray.
Variable exp : Q → Q.
Variable argsort : list Q → list nat.
Hypothesis resize_ok : resize_contract cv2_resize.

Lemma collect_frames_short (video : list ndarray) (todo : nat) :
  (length video < todo)%nat →
  collect_frames video todo = (Some <$> video) ++ [None].
Proof.
  revert todo. induction video as [|f video IH]; intros [|todo] H;
    simpl in *; try lia; [done|]. f_equal. apply IH. lia.
Qed.

Lemma collect_frames_enough (video : list ndarray) (todo : nat) :
  (todo ≤ length video)%nat →
  collect_frames video todo = Some <$> take todo video.
Proof.
  revert todo. induction video as [|f video IH]; intros [|todo] H;
    simpl in *; try lia; try done. f_equal. apply IH. lia.
Qed.

Lemma comprehension_app_raise {A B : Type} (f : A → result B)
    (l1 l2 : list A) (x : A) (e : exn) :
  is_ok (comprehension f l1) = true → f x = Raise e →
  comprehension f (l1 ++ x :: l2) = Raise e.
Proof.
  intros Hok Hx. induction l1 as [|y l1 IH]; simpl in *.
  - by rewrite Hx.
  - destruct (f y); [|done]. simpl in *.
    destruct (comprehension f l1); [|done]. by rewrite IH.
Qed.

(** A video that ends early leaves a [None] at the end of the frame
    list, and reading its [shape] raises. *)
Lemma short_video_raises (video : list ndarray)
    (num_frames sampling_rate crop_size : Z) (mean std : list Q) :
  Forall bgr_image video → 0 < crop_size →
  Z.of_nat (length video) < num_frames * sampling_rate →
  process_inputs cv2_resize
    (collect_frames video (Z.to_nat (num_frames * sampling_rate)))
    num_frames crop_size mean std = Raise AttributeError.
Proof using resize_ok.
  intros Hvideo Hsize Hshort. unfold process_inputs.
  rewrite collect_frames_short by lia.
  rewrite (comprehension_app_raise _ _ _ _ AttributeError); [done| |done].
  destruct (comprehension_Forall (scale_short_side cv2_resize crop_size)
              (λ f, ∃ g, f = Some g ∧ bgr_image g) (λ _, True)
              (Some <$> video)) as (ys & -> & _); [| |done].
  - intros ? (g & -> & Hg).
    destruct (scale_short_side_shape cv2_resize resize_ok crop_size g Hsize Hg)
      as (y & -> & _). by exists y.
  - apply Forall_fmap. eapply Forall_impl; [exact Hvideo|].
    intros g Hg. by exists g.
Qed.

Lemma no_frames_raises (num_frames crop_size : Z) (mean std : list Q) :
  length mean = 3%nat →
  process_inputs cv2_resize [] num_frames crop_size mean std
  = Raise ValueError.
Proof.
  intros Hmean. unfold process_inputs, normalize, binop, broadcast_shapes.
  simpl. by rewrite Hmean.
Qed.

(** C8.  On a decoded video the pre-processing of [run_inference]
    either returns the two pathway tensors with exactly the target
    shapes or raises; when the video has fewer than
    [num_frames * sampling_rate] readable frames it raises (Python's
    [AttributeError], from reading the shape of the missing frame), and
    so does [run_inference]: no wrongly shaped tensor is returned. *)
Theorem C8_preprocessing_exact_or_raises (model : model)
    (video : list ndarray) (top_k : Z) (id_to_label_mapping : gmap Z string)
    (num_frames sampling_rate crop_size : Z) (mean std : list Q) :
  Forall bgr_image video → 0 < crop_size → 0 ≤ num_frames →
  length mean = 3%nat → length std = 3%nat →
  let frames :=
    collect_frames video (Z.to_nat (num_frames * sampling_rate)) in
  let inputs :=
    process_inputs cv2_resize frames num_frames crop_size mean std in
  ((∃ slow fast,
       inputs = Ok [slow; fast]
       ∧ shape fast = [1; 3; num_frames; crop_size; crop_size]
       ∧ shape slow = [1; 3; num_frames / 4; crop_size; crop_size])
   ∨ ∃ e, inputs = Raise e)
  ∧ (Z.of_nat (length video) < num_frames * sampling_rate →
     inputs = Raise AttributeError
     ∧ run_inference cv2_resize exp argsort model video top_k
         id_to_label_mapping num_frames sampling_rate crop_size mean std
       = Raise AttributeError)
  ∧ (0 < num_frames * sampling_rate ≤ Z.of_nat (length video) →
     is_ok inputs = true).
Proof using resize_ok.
  intros Hvideo Hsize Hnum Hmean Hstd frames inputs.
  assert (0 < num_frames * sampling_rate ≤ Z.of_nat (length video) →
          ∃ slow fast,
            inputs = Ok [slow; fast]
            ∧ shape fast = [1; 3; num_frames; crop_size; crop_size]
            ∧ shape slow = [1; 3; num_frames / 4; crop_size; crop_size])
    as Hlong.
  { intros Hlen. unfold inputs, frames.
    rewrite collect_frames_enough by lia.
    apply (process_inputs_shapes cv2_resize resize_ok); try done.
    - destruct video; simpl in *; [lia|].
      destruct (Z.to_nat (num_frames * sampling_rate)) eqn:E; [lia|done].
    - by apply Forall_take. }
  split; [|split].
  - destruct (decide (0 < num_frames * sampling_rate)) as [Hpos|Hpos].
    + destruct (decide (num_frames * sampling_rate
                        ≤ Z.of_nat (length video))) as [Hlen|Hlen].
      * left. apply Hlong. lia.
      * right. exists AttributeError.
        apply short_video_raises; [done..|lia].
    + right. exists ValueError. unfold inputs, frames.
      replace (Z.to_nat (num_frames * sampling_rate)) with 0%nat by lia.
      by apply no_frames_raises.
  - intros Hshort. split.
    + by apply short_video_raises.
    + unfold run_inference. fold frames. fold inputs.
      assert (inputs = Raise AttributeError) as ->
        by (by apply short_video_raises).
      done.
  - intros Hlen. destruct (Hlong Hlen) as (slow & fast & -> & _). done.
Qed.

(** C9.  [run_inference] never reads [top_k]: two calls that differ
    only in [top_k] return the same thing, and with a model that scores
    at least five classes every list of labels it returns has exactly
    five entries (the hard-coded local [topk]). *)
Theorem C9_top_k_is_ignored (model : model) (video : list ndarray)
    (top_k top_k' : Z) (id_to_label_mapping : gmap Z string)
    (num_frames sampling_rate crop_size : Z) (mean std : list Q) :
  argsort_contract argsort →
  (∀ inputs predictions,
      predict model inputs = Ok predictions →
      Forall (λ row, (5 ≤ length row)%nat) predictions) →
  run_inference cv2_resize exp argsort model video top_k
    id_to_label_mapping num_frames sampling_rate crop_size mean std
  = run_inference cv2_resize exp argsort model video top_k'
      id_to_label_mapping num_frames sampling_rate crop_size mean std
  ∧ ∀ names,
      run_inference cv2_resize exp argsort model video top_k
        id_to_label_mapping num_frames sampling_rate crop_size mean std
      = Ok names →
      length names = 5%nat.
Proof.
  intros Hsort Hmodel. split; [reflexivity|].
  intros names. unfold run_inference.
  destruct (process_inputs _ _ _ _ _ _) as [inputs|]; [|done]. simpl.
  destruct (predict model inputs) as [predictions|] eqn:Hp; [|done]. simpl.
  specialize (Hmodel _ _ Hp).
  destruct predictions as [|row rest]; [done|].
  unfold classify, softmax. simpl. intros Hnames.
  apply comprehension_length in Hnames. rewrite Hnames, length_take.
  destruct (Hsort (Qmult (-1) <$>
              ((λ v, exp v / foldr Qplus 0 (exp <$> row ++ concat rest))%Q
                 <$> row))) as [Hperm _].
  rewrite (Permutation_length Hperm), length_seq, !length_fmap.
  inversion Hmodel; subst. lia.
Qed.
End inference.

(** C3 at two frames of different sizes and the notebook's constants. *)
Lemma C3_process_inputs_witness :
  ∃ slow fast,
    process_inputs resize_nearest
      (Some <$> [grey_frame 300 400; grey_frame 256 256])
      NUM_FRAMES CROP_SIZE MEAN STD = Ok [slow; fast]
    ∧ shape fast = [1; 3; NUM_FRAMES; CROP_SIZE; CROP_SIZE]%Z
    ∧ shape slow = [1; 3; NUM_FRAMES / 4; CROP_SIZE; CROP_SIZE]%Z.
Proof.
  apply (C3_process_inputs_exact_shapes resize_nearest resize_nearest_contract
           [grey_frame 300 400; grey_frame 256 256]
           NUM_FRAMES CROP_SIZE MEAN STD).
  - discriminate.
  - repeat constructor; eexists _, _;
      (split; [reflexivity | split; discriminate]).
  - reflexivity.
  - discriminate.
  - reflexivity.
  - reflexivity.
Defined.

(** C8 at a one-frame video when two frames are asked for. *)
Lemma C8_short_video_witness :
  run_inference resize_nearest exp_like argsort_stable sample_model
    [grey_frame 2 3] TOP_K sample_labels 1 2 2 MEAN STD
  = Raise AttributeError.
Proof.
  refine (proj2 (proj1 (proj2
    (C8_preprocessing_exact_or_raises resize_nearest exp_like argsort_stable
       resize_nearest_contract sample_model [grey_frame 2 3] TOP_K
       sample_labels 1 2 2 MEAN STD _ _ _ _ _)) _)).
  - repeat constructor. eexists _, _. split; [reflexivity | split; reflexivity].
  - reflexivity.
  - discriminate.
  - reflexivity.
  - reflexivity.
  - reflexivity.
Defined.

(** C9 on a two-frame video: [top_k = 5] and [top_k = 1] give the same
    five labels. *)
Lemma C9_top_k_witness :
  run_inference resize_nearest exp_like argsort_stable sample_model
    [grey_frame 2 3; grey_frame 2 3] 5 sample_labels 1 2 2 MEAN STD
  = run_inference resize_nearest exp_like argsort_stable sample_model
      [grey_frame 2 3; grey_frame 2 3] 1 sample_labels 1 2 2 MEAN STD
  ∧ ∀ names,
      run_inference resize_nearest exp_like argsort_stable sample_model
        [grey_frame 2 3; grey_frame 2 3] 5 sample_labels 1 2 2 MEAN STD
      = Ok names →
      length names = 5%nat.
Proof.
  apply (C9_top_k_is_ignored resize_nearest exp_like argsort_stable
           sample_model [grey_frame 2 3; grey_frame 2 3] 5 1 sample_labels
           1 2 2 MEAN STD).
  - apply argsort_stable_contract.
  - intros inputs predictions [= <-]. repeat constructor.
Defined.

(** The same call does return, with the five best labels in order. *)
Example run_inference_sample :
  run_inference resize_nearest exp_like argsort_stable sample_model
    [grey_frame 2 3; grey_frame 2 3] 1 sample_labels 1 2 2 MEAN STD
  = Ok ["zumba"; "archery"; "surfing"; "juggling"; "bowling"].
Proof. by vm_compute. Qed.

(** Both kinds of model object go through the same code after the call. *)
Lemma run_inference_runner_agnostic
    (cv2_resize : ndarray → Z → Z → result ndarray) (exp : Q → Q)
    (argsort : list Q → list nat) (f : list ndarray → result scores)
    (video : list ndarray) (top_k : Z) (id_to_label_mapping : gmap Z string)
    (num_frames sampling_rate crop_size : Z) (mean std : list Q) :
  run_inference cv2_resize exp argsort (CompiledModel f) video top_k
    id_to_label_mapping num_frames sampling_rate crop_size mean std
  = run_inference cv2_resize exp argsort (TorchModel f) video top_k
      id_to_label_mapping num_frames sampling_rate crop_size mean std.
Proof. reflexivity. Qed.

(** ** The conversion cache *)

Section conversion.
Variable Model : Type.
Variable convert_model : option string → result Model.
Variable serialize : Model → string * string.
Variable read_model : option string → option string → result Model.
Variable onnx_export : string.

Abbreviation cmodel_cell :=
  (ir_cmodel_cell Model convert_model serialize read_model).
Abbreviation encoder_cell :=
  (ov_encoder_cell Model convert_model serialize read_model onnx_export).

Lemma save_model_exists (m : Model) (path : string) (fs : files) :
  is_Some (save_model Model serialize m path fs !! path).
Proof.
  unfold save_model. destruct (serialize m) as [xml bin].
  destruct (decide (bin_path path = path)) as [->|Hne].
  - rewrite lookup_insert_eq. by eexists.
  - rewrite lookup_insert_ne, lookup_insert_eq by done. by eexists.
Qed.

Lemma cmodel_cell_hit (onnx_path ir_path : string) (fs : files) :
  is_Some (fs !! ir_path) → (cmodel_cell onnx_path ir_path fs).1 = fs.
Proof. intros H. unfold ir_cmodel_cell. by rewrite bool_decide_eq_true_2. Qed.

Lemma encoder_cell_hit (fs : files) :
  is_Some (fs !! OV_ENCODER_PATH) → (encoder_cell fs).1 = fs.
Proof. intros H. unfold ov_encoder_cell. by rewrite bool_decide_eq_true_2. Qed.

(** C4.  The conversion step is idempotent.  When the artifact file
    exists, the cell leaves every file as it is (it only reads the
    model back); hence running the cell a second time changes nothing,
    and the cached artifact is byte-identical after the second run.
    This holds for the FreeVC cell and for the EnCodec cell. *)
Theorem C4_conversion_step_idempotent
    (onnx_path ir_path : string) (fs : files) :
  (is_Some (fs !! ir_path) → (cmodel_cell onnx_path ir_path fs).1 = fs)
  ∧ (cmodel_cell onnx_path ir_path (cmodel_cell onnx_path ir_path fs).1).1
    = (cmodel_cell onnx_path ir_path fs).1
  ∧ (is_Some (fs !! OV_ENCODER_PATH) → (encoder_cell fs).1 = fs)
  ∧ (encoder_cell (encoder_cell fs).1).1 = (encoder_cell fs).1.
Proof.
  split; [apply cmodel_cell_hit|]. split; [|split; [apply encoder_cell_hit|]].
  - unfold ir_cmodel_cell at 2 3. case_bool_decide as Hhit.
    + by apply cmodel_cell_hit.
    + destruct (convert_model _) as [m|e] eqn:Hc; simpl.
      * apply cmodel_cell_hit, save_model_exists.
      * unfold ir_cmodel_cell. rewrite bool_decide_eq_false_2 by done.
        by rewrite Hc.
  - unfold ov_encoder_cell at 2 3. case_bool_decide as Hhit.
    + by apply encoder_cell_hit.
    + destruct (convert_model _) as [m|e] eqn:Hc; simpl.
      * apply encoder_cell_hit, save_model_exists.
      * unfold ov_encoder_cell.
        rewrite bool_decide_eq_false_2.
        -- by rewrite insert_insert_eq, Hc.
        -- by rewrite lookup_insert_ne.
Qed.
End conversion.

(** C4 on a cache that already holds the artifact. *)
Lemma C4_cache_hit_witness :
  (ir_cmodel_cell string sample_convert sample_serialize sample_read
     "cmodel.onnx" "cmodel.xml"
     {[ "cmodel.xml" := "<net/>"; "cmodel.bin" := "" ]}).1
  = {[ "cmodel.xml" := "<net/>"; "cmodel.bin" := "" ]}.
Proof.
  apply (proj1 (C4_conversion_step_idempotent string sample_convert
                  sample_serialize sample_read "" "cmodel.onnx" "cmodel.xml"
                  {[ "cmodel.xml" := "<net/>"; "cmodel.bin" := "" ]})).
  by eexists.
Defined.

(** A miss converts, writes both files and returns the model; the
    second run reads it back from the files just written. *)
Example conversion_miss_then_hit :
  let fs := {[ "cmodel.onnx" := "graph" ]} : files in
  let run := ir_cmodel_cell string sample_convert sample_serialize sample_read
               "cmodel.onnx" "cmodel.xml" in
  (run fs).1 = {[ "cmodel.onnx" := "graph"; "cmodel.xml" := "graph";
                  "cmodel.bin" := "" ]}
  ∧ (run fs).2 = Ok "graph"
  ∧ run (run fs).1 = ((run fs).1, Ok "graph").
Proof. by vm_compute. Qed.

(** ** EnCodec: the demo adaptors undo each other *)

Section encodec_roundtrip.
Local Open Scope Z_scope.
Variable convert_audio : ndarray → Z → Z → Z → ndarray.
Local Arguments unsqueezed_index : simpl never.

Lemma int16_scale_roundtrip (z : Z) :
  is_int16 z →
  cast int16 (cast float32 (inject_Z z) / inject_Z (2 ^ 15)
              * inject_Z (2 ^ 15))%Q
  = inject_Z z.
Proof.
  intros Hz. unfold is_int16 in Hz. unfold cast, int_of, wrap_signed.
  f_equal. simpl Qnum. simpl Qden.
  change (Z.pos (1 * 32768 * 1)) with 32768.
  change (2 ^ 15) with 32768 in *.
  rewrite Z.mul_1_r, Z.quot_mul by done.
  change (2 ^ (16 - 1)) with 32768. change (2 ^ 16) with 65536.
  rewrite Z.mod_small; lia.
Qed.

Lemma concat_singletons {A B : Type} (g : A → B) (l : list A) :
  concat ((λ i, [g i]) <$> l) = g <$> l.
Proof. induction l; simpl; [done|]. by f_equal. Qed.

Lemma tolist_1d (a : ndarray) (n : Z) :
  shape a = [n] → tolist a = (λ i, item a [i]) <$> seqZ 0 n.
Proof.
  intros H. unfold tolist. rewrite H. cbn [flat_items].
  apply (concat_singletons (λ i, item a [i])).
Qed.

(** C7.  With [convert_audio] the identity (sample rate and channel
    count already those of the model) and an identity model in between,
    [postprocess (preprocess waveform)] returns the int16 samples of a
    mono waveform exactly: dividing by 2^15 and multiplying by 2^15
    are exact on 16-bit values, and the cast back to int16 neither
    truncates nor wraps. *)
Theorem C7_adaptors_roundtrip (samples : list Z)
    (sample_rate model_sr model_channels : Z) :
  (∀ wav, convert_audio wav sample_rate model_sr model_channels = wav) →
  Forall is_int16 samples →
  let output :=
    postprocess (preprocess convert_audio (waveform samples)
                            sample_rate model_sr model_channels) in
  dtype_of output = int16
  ∧ tolist output = inject_Z <$> samples
  ∧ (length samples ≠ 1%nat → shape output = [Z.of_nat (length samples)]).
Proof.
  intros Hid Hsamples output. unfold output, preprocess. rewrite Hid.
  split; [done|].
  assert (∀ i z, samples !! i = Some z →
            ∀ idx, unsqueezed_index [Z.of_nat (length samples)] idx
                   = [Z.of_nat i] →
            item (postprocess
                    (expand_dims
                       (div_scalar (astype float32 (waveform samples))
                                   (inject_Z (2 ^ 15))))) idx
            = inject_Z z) as Hitem.
  { intros i z Hz idx Hidx. unfold postprocess. simpl.
    rewrite length_fmap, Hidx. simpl. rewrite Nat2Z.id.
    rewrite (nth_lookup_Some _ _ _ (inject_Z z))
      by (by rewrite list_lookup_fmap, Hz).
    apply int16_scale_roundtrip.
    rewrite Forall_forall in Hsamples. apply Hsamples.
    by eapply list_elem_of_lookup_2. }
  unfold tolist.
  destruct (decide (length samples = 1%nat)) as [Hone|Hmany].
  - destruct samples as [|z [|??]]; try done. split; [|done].
    simpl. f_equal. by apply (Hitem 0%nat z eq_refl []).
  - assert (shape (postprocess
              (expand_dims (div_scalar (astype float32 (waveform samples))
                                       (inject_Z (2 ^ 15)))))
            = [Z.of_nat (length samples)]) as Hshape.
    { simpl. rewrite length_fmap.
      rewrite filter_cons_False by (intros H; by apply H).
      rewrite filter_cons_True by lia. done. }
    split; [|done]. fold (tolist (postprocess
              (expand_dims (div_scalar (astype float32 (waveform samples))
                                       (inject_Z (2 ^ 15)))))).
    rewrite (tolist_1d _ _ Hshape).
    apply list_eq. intros i. rewrite !list_lookup_fmap.
    destruct (samples !! i) as [z|] eqn:Hz; simpl.
    + rewrite lookup_seqZ_lt
        by (apply lookup_lt_Some in Hz; lia).
      simpl. f_equal. apply (Hitem i z Hz [Z.of_nat i]).
      unfold unsqueezed_index. simpl.
      destruct (Z.eqb_spec (Z.of_nat (length samples)) 1); [lia|done].
    + rewrite lookup_seqZ_ge; [done|]. apply lookup_ge_None in Hz. lia.
Qed.
End encodec_roundtrip.

(** C7 at a waveform that touches both ends of the int16 range. *)
Lemma C7_roundtrip_witness :
  let output :=
    postprocess (preprocess convert_audio_matching
                            (waveform [0; 1; -32768; 32767]%Z) 24000 24000 1) in
  dtype_of output = int16
  ∧ tolist output = inject_Z <$> [0; 1; -32768; 32767]%Z
  ∧ (length [0; 1; -32768; 32767]%Z ≠ 1%nat →
     shape output = [Z.of_nat (length [0; 1; -32768; 32767]%Z)]).
Proof.
  apply (C7_adaptors_roundtrip convert_audio_matching
           [0; 1; -32768; 32767]%Z 24000 24000 1).
  - reflexivity.
  - repeat constructor; discriminate.
Defined.

(** * Further properties of the code *)

(** ** FreeVC: the partial utterances in general *)

Section partial_slices.
Local Open Scope Z_scope.
Variables (hp : hparams) (rate min_coverage : Q) (n_samples : Z).
Abbreviation spf := (samples_per_frame hp).
Abbreviation pnf := (partials_n_frames hp).
Abbreviation fs := (frame_step hp rate).
Abbreviation n_frames :=
  (Qceiling (inject_Z (n_samples + 1) / inject_Z (samples_per_frame hp))).
Abbreviation steps :=
  (Z.max 1 (n_frames - partials_n_frames hp + frame_step hp rate + 1)).
Abbreviation computed := (Z.to_nat ((steps + fs - 1) / fs)).

(** The arguments on which none of the assertions and divisions of
    [compute_partial_slices] fails. *)
Let valid : Prop :=
  (0 < min_coverage)%Q ∧ (min_coverage <= 1)%Q ∧ spf ≠ 0
  ∧ ¬ (rate == 0)%Q ∧ 0 < fs ≤ pnf.

Lemma range_units (stop step : Z) :
  range 0 stop step
  = (λ k : nat, Z.of_nat k * step)
      <$> seq 0 (Z.to_nat ((stop + step - 1) / step)).
Proof.
  unfold range. rewrite Z.sub_0_r. apply list_fmap_ext. intros; lia.
Qed.

Lemma computed_pos : 0 < fs → (1 ≤ computed)%nat.
Proof.
  intros Hfs.
  assert (1 ≤ (steps + fs - 1) / fs) as H
    by (apply Z.div_le_lower_bound; lia).
  lia.
Qed.

Lemma removelast_fmap_seq {A : Type} (f : nat → A) (n : nat) :
  removelast (f <$> seq 0 (S n)) = f <$> seq 0 n.
Proof.
  rewrite seq_S, fmap_app. simpl. apply removelast_last.
Qed.

Lemma last_fmap_seq {A : Type} (f : nat → A) (n : nat) :
  last (f <$> seq 0 (S n)) = Some (f n).
Proof. rewrite seq_S, fmap_app. simpl. apply last_snoc. Qed.

(** What [compute_partial_slices] returns on valid arguments. *)
Lemma compute_partial_slices_units :
  valid →
  compute_partial_slices hp n_samples rate min_coverage
  = let kept :=
      if Qlt_bool (coverage n_samples (wav_unit hp rate (computed - 1)))
                  min_coverage
         && (1 <? Z.of_nat computed)
      then (computed - 1)%nat else computed in
    Ok (wav_unit hp rate <$> seq 0 kept, mel_unit hp rate <$> seq 0 kept).
Proof.
  intros (Hmc0 & Hmc1 & Hspf & Hrate & Hfs).
  unfold compute_partial_slices.
  assert (Qlt_bool 0 min_coverage && Qle_bool min_coverage 1 = true) as ->.
  { apply andb_true_iff. split; [by apply Qlt_bool_iff | by apply Qle_bool_iff]. }
  cbn [assert bind].
  destruct (Z.eqb_spec spf 0) as [|_]; [done|]. cbn [bind].
  destruct (Qeq_bool rate 0) eqn:Er; [by apply Qeq_bool_iff in Er|]. cbn [bind].
  destruct (Z.ltb_spec 0 fs) as [_|]; [|lia]. cbn [assert bind].
  destruct (Z.leb_spec fs pnf) as [_|]; [|lia]. cbn [assert bind].
  rewrite range_units.
  pose proof (computed_pos ltac:(lia)) as Hpos.
  destruct computed as [|m] eqn:Em; [lia|].
  rewrite <- !list_fmap_compose.
  change ((λ s : pyslice, (s.1 * spf, s.2 * spf))
          ∘ (λ i, (i, i + pnf)) ∘ (λ k : nat, Z.of_nat k * fs))
    with (wav_unit hp rate).
  change ((λ i, (i, i + pnf)) ∘ (λ k : nat, Z.of_nat k * fs))
    with (mel_unit hp rate).
  rewrite last_fmap_seq, length_fmap, length_seq.
  replace (S m - 1)%nat with m by lia.
  destruct (_ && _); [|done].
  by rewrite !removelast_fmap_seq.
Qed.

Lemma compute_partial_slices_ok_valid :
  is_ok (compute_partial_slices hp n_samples rate min_coverage) = true → valid.
Proof.
  unfold compute_partial_slices, valid.
  destruct (Qlt_bool 0 min_coverage) eqn:H0; [|done].
  destruct (Qle_bool min_coverage 1) eqn:H1; [|done]. cbn [andb assert bind].
  destruct (Z.eqb_spec spf 0) as [|Hspf]; [done|]. cbn [bind].
  destruct (Qeq_bool rate 0) eqn:Er; [done|]. cbn [bind].
  destruct (Z.ltb_spec 0 fs); [|done]. cbn [assert bind].
  destruct (Z.leb_spec fs pnf); [|done]. intros _.
  split; [by apply Qlt_bool_iff|]. split; [by apply Qle_bool_iff|].
  split; [done|]. split; [|lia].
  intros Hr. apply Qeq_bool_iff in Hr. congruence.
Qed.

(** X1.  [compute_partial_slices] returns (rather than raising) exactly
    when [0 < min_coverage <= 1], [samples_per_frame] and [rate] are not
    zero, and [0 < frame_step <= partials_n_frames]: no other input makes
    it fail, whatever the number of samples. *)
Theorem compute_partial_slices_succeeds_iff :
  is_ok (compute_partial_slices hp n_samples rate min_coverage) = true
  ↔ (0 < min_coverage)%Q ∧ (min_coverage <= 1)%Q ∧ spf ≠ 0
    ∧ ¬ (rate == 0)%Q ∧ 0 < fs ≤ pnf.
Proof.
  split; [apply compute_partial_slices_ok_valid|].
  intros Hvalid. by rewrite compute_partial_slices_units.
Qed.

(** X2.  Whatever [compute_partial_slices] returns is a non-empty run of
    partials: the [k]-th mel slice starts at frame [k * frame_step] and
    spans exactly [partials_n_frames] frames, and the [k]-th waveform
    slice is that mel slice scaled by [samples_per_frame]. *)
Theorem compute_partial_slices_structure
    (wav_slices mel_slices : list pyslice) :
  compute_partial_slices hp n_samples rate min_coverage
    = Ok (wav_slices, mel_slices) →
  ∃ n : nat,
    (1 ≤ n)%nat
    ∧ mel_slices
      = (λ k : nat, (Z.of_nat k * fs, Z.of_nat k * fs + pnf)) <$> seq 0 n
    ∧ wav_slices
      = (λ s : pyslice, (fst s * spf, snd s * spf)) <$> mel_slices.
Proof.
  intros Hok.
  assert (valid) as Hvalid
    by (apply compute_partial_slices_ok_valid; by rewrite Hok).
  rewrite (compute_partial_slices_units Hvalid) in Hok.
  pose proof (computed_pos ltac:(unfold valid in Hvalid; lia)) as Hpos.
  cbv zeta in Hok.
  set (kept := if _ && _ then _ else _) in Hok.
  injection Hok as <- <-. exists kept. split.
  - unfold kept. destruct (Qlt_bool _ _); [|simpl; lia].
    simpl. destruct (Z.ltb_spec 1 (Z.of_nat computed)); lia.
  - split; [done|]. by rewrite <- list_fmap_compose.
Qed.

(** X3.  The partials kept start at sample 0 and stop less than one
    frame step before the end of the utterance: at most
    [frame_step * samples_per_frame - 1] trailing samples are left out. *)
Theorem compute_partial_slices_coverage
    (wav_slices mel_slices : list pyslice) :
  0 < spf →
  compute_partial_slices hp n_samples rate min_coverage
    = Ok (wav_slices, mel_slices) →
  ∃ stop : Z,
    head wav_slices = Some (0, pnf * spf)
    ∧ snd <$> last wav_slices = Some stop
    ∧ n_samples < stop + fs * spf.
Proof.
  intros Hspf Hok.
  assert (valid) as Hvalid
    by (apply compute_partial_slices_ok_valid; by rewrite Hok).
  rewrite (compute_partial_slices_units Hvalid) in Hok.
  destruct Hvalid as (_ & _ & _ & _ & Hfs).
  pose proof (computed_pos ltac:(lia)) as Hpos.
  assert (steps ≤ Z.of_nat computed * fs) as Hsteps.
  { rewrite Z2Nat.id by (apply Z.div_pos; lia).
    pose proof (Z.div_mod (steps + fs - 1) fs ltac:(lia)).
    pose proof (Z.mod_pos_bound (steps + fs - 1) fs ltac:(lia)). nia. }
  assert (n_samples + 1 ≤ n_frames * spf) as Hceil.
  { rewrite Qceiling_div by done.
    pose proof (Z.div_mod (- (n_samples + 1)) spf ltac:(lia)).
    pose proof (Z.mod_pos_bound (- (n_samples + 1)) spf Hspf). nia. }
  cbv zeta in Hok.
  set (kept := if _ && _ then _ else _) in Hok.
  assert (1 ≤ kept ∧ computed - 1 ≤ kept)%nat as [Hk1 Hk2].
  { unfold kept. destruct (Qlt_bool _ _); [|simpl; lia].
    simpl. destruct (Z.ltb_spec 1 (Z.of_nat computed)); lia. }
  injection Hok as <- <-.
  destruct kept as [|m]; [lia|].
  exists (snd (wav_unit hp rate m)). split; [|split].
  - simpl. unfold wav_unit, mel_unit. simpl. f_equal.
  - by rewrite last_fmap_seq.
  - unfold wav_unit, mel_unit. simpl. nia.
Qed.
End partial_slices.

(** ** FreeVC: the embedding of a short utterance *)

Section short_embedding.
Local Open Scope Z_scope.
Variables (hp : hparams) (rate : Q) (wav : list R).
Variable wav_to_mel_spectrogram : list R → list (list R).
Variable smodel : list (list (list R)) → list (list R).
Abbreviation spf := (samples_per_frame hp).
Abbreviation pnf := (partials_n_frames hp).
Abbreviation fs := (frame_step hp rate).

Lemma mean_axis0_single (e : list R) : mean_axis0 [e] = e.
Proof.
  unfold mean_axis0. simpl. apply list_eq. intros i.
  rewrite list_lookup_fmap.
  destruct (e !! i) as [x|] eqn:Hx.
  - rewrite (proj2 (lookup_seq 0 (length e) i i)); simpl.
    + f_equal. rewrite (nth_lookup_Some _ _ _ _ Hx). unfold Rsum. simpl. field.
    + split; [done|]. by eapply lookup_lt_Some.
  - apply lookup_ge_None in Hx. rewrite lookup_seq_ge; [done|lia].
Qed.

(** X4.  For an utterance shorter than one partial (default overlap),
    [embed_utterance] pads it with zeros to one full partial, embeds
    that single partial and returns its embedding divided by its L2
    norm; with [return_partials] it also returns that one partial
    embedding and the slice [(0, partials_n_frames * samples_per_frame)]. *)
Theorem short_utterance_embedding (return_partials : bool) (e : list R) :
  0 < spf → ¬ (rate == 0)%Q → 0 < fs ≤ pnf →
  Z.of_nat (length wav) < pnf * spf → pnf ≤ 4 * fs →
  smodel [slice_list
            (wav_to_mel_spectrogram
               (wav ++ replicate
                         (Z.to_nat (pnf * spf - Z.of_nat (length wav))) 0%R))
            0 pnf] = [e] →
  embed_utterance hp wav_to_mel_spectrogram smodel wav return_partials
                  rate (3 # 4)
  = Ok ((λ x, x / norm2 e)%R <$> e,
        if return_partials then Some ([e], [(0, pnf * spf)]) else None).
Proof.
  intros Hspf Hrate Hfs Hshort Hov Hmodel. unfold embed_utterance.
  rewrite (short_utterance_is_zero_padded hp rate (Z.of_nat (length wav))
             Hspf Hrate Hfs ltac:(lia) wav_to_mel_spectrogram smodel wav
             eq_refl Hov).
  unfold stack. cbn [forallb]. rewrite bool_decide_eq_true_2 by done.
  cbn [andb bind]. rewrite Hmodel, mean_axis0_single.
  by destruct return_partials.
Qed.
End short_embedding.

(** X4 at the three-sample utterance of the examples. *)
Lemma short_utterance_embedding_witness :
  embed_utterance freevc_hparams sample_wav_to_mel sample_smodel sample_wav
    true (13 # 10) (3 # 4)
  = Ok ((λ x, x / norm2 [3; 4])%R <$> [3; 4]%R,
        Some ([[3; 4]%R], [(0, 160 * 160)%Z])).
Proof.
  apply (short_utterance_embedding freevc_hparams (13 # 10) sample_wav
           sample_wav_to_mel sample_smodel true [3; 4]%R).
  - reflexivity.
  - discriminate.
  - split; [reflexivity | discriminate].
  - reflexivity.
  - discriminate.
  - by vm_compute.
Defined.

(** X2 at a 40000-sample utterance, whose third partial is dropped. *)
Lemma compute_partial_slices_structure_witness :
  ∃ n : nat,
    (1 ≤ n)%nat
    ∧ [(0, 160); (77, 237)]%Z
      = (λ k : nat, (Z.of_nat k * frame_step freevc_hparams (13 # 10),
                     Z.of_nat k * frame_step freevc_hparams (13 # 10)
                     + partials_n_frames freevc_hparams)%Z) <$> seq 0 n
    ∧ [(0, 25600); (12320, 37920)]%Z
      = (λ s : pyslice, (fst s * samples_per_frame freevc_hparams,
                         snd s * samples_per_frame freevc_hparams)%Z)
          <$> [(0, 160); (77, 237)]%Z.
Proof.
  apply (compute_partial_slices_structure freevc_hparams (13 # 10) (3 # 4)
           40000).
  reflexivity.
Defined.

(** X3 at the same utterance: 2080 samples are left after the last
    partial, fewer than the 12320 of one step. *)
Lemma compute_partial_slices_coverage_witness :
  ∃ stop : Z,
    head [(0, 25600); (12320, 37920)]%Z
    = Some (0, partials_n_frames freevc_hparams
               * samples_per_frame freevc_hparams)%Z
    ∧ snd <$> last [(0, 25600); (12320, 37920)]%Z = Some stop
    ∧ (40000 < stop + frame_step freevc_hparams (13 # 10)
                      * samples_per_frame freevc_hparams)%Z.
Proof.
  apply (compute_partial_slices_coverage freevc_hparams (13 # 10) (3 # 4)
           40000 _ [(0, 160); (77, 237)]%Z).
  - reflexivity.
  - reflexivity.
Defined.

(** ** SlowFast: scaling, cropping and normalising one frame *)

Section frame_geometry.
Local Open Scope Z_scope.
Variable cv2_resize : ndarray → Z → Z → result ndarray.
Hypothesis resize_ok : resize_contract cv2_resize.
Local Arguments Qfloor : simpl never.
Local Arguments Qceiling : simpl never.
Local Arguments Qmult : simpl never.
Local Arguments Qdiv : simpl never.
Local Arguments inject_Z : simpl never.

Lemma scaled_side_value (a b size : Z) :
  0 < b →
  Qfloor ((inject_Z a / inject_Z b) * inject_Z size)%Q = a * size / b.
Proof.
  intros Hb.
  assert ((inject_Z a / inject_Z b) * inject_Z size
          == inject_Z (a * size) / inject_Z b)%Q as ->.
  { rewrite inject_Z_mult. destruct b as [|p|p]; try lia.
    field. discriminate. }
  by apply Qfloor_div.
Qed.

(** X5.  [scale_short_side] of a decoded frame makes the short side
    exactly [size] and keeps the aspect ratio up to rounding: the long
    side becomes [long * size / short] rounded down to a whole number or
    the one below it, and is never less than [size]; frames smaller
    than [size] are enlarged. *)
Theorem scale_short_side_exact (size h w : Z) (frame : ndarray) :
  shape frame = [h; w; 3] → 0 < h → 0 < w → 0 < size →
  ∃ (scaled : ndarray) (long : Z),
    scale_short_side cv2_resize size (Some frame) = Ok scaled
    ∧ shape scaled = (if w <? h then [long; size; 3] else [size; long; 3])
    ∧ size ≤ long
    ∧ h `max` w * size - h `min` w ≤ long * (h `min` w) ≤ h `max` w * size.
Proof using resize_ok.
  intros Hshape Hh Hw Hsize.
  assert (∀ a b, 0 < b → b ≤ a →
            size ≤ a * size / b
            ∧ a * size - b ≤ a * size / b * b ≤ a * size) as Hlong.
  { intros a b Hb Hab. split.
    - apply Z.div_le_lower_bound; nia.
    - pose proof (Z.div_mod (a * size) b ltac:(lia)).
      pose proof (Z.mod_pos_bound (a * size) b Hb). lia. }
  unfold scale_short_side. simpl. unfold shape_at. rewrite Hshape. simpl.
  destruct ((w <=? h) && (w =? size) || (h <=? w) && (h =? size)) eqn:Hsame.
  - exists frame. rewrite Hshape.
    apply orb_true_iff in Hsame
      as [[H1 H2]%andb_true_iff|[H1 H2]%andb_true_iff];
      apply Z.leb_le in H1; apply Z.eqb_eq in H2; subst size.
    + exists h. split; [done|]. destruct (Z.ltb_spec w h).
      * split; [done|]. nia.
      * replace h with w by lia. split; [done|]. nia.
    + exists w. split; [done|]. destruct (Z.ltb_spec w h); [lia|].
      split; [done|]. nia.
  - destruct (Z.ltb_spec w h) as [Hlt|Hge].
    + destruct (Z.eqb_spec w 0); [lia|]. cbn [bind].
      rewrite scaled_side_value by done.
      destruct (Hlong h w Hw ltac:(lia)) as [Hlo Hnear].
      destruct (resize_ok frame h w size (h * size / w) Hshape Hh Hw Hsize
                  ltac:(lia)) as (g & -> & Hg).
      simpl. eexists _, (h * size / w). split; [reflexivity|]. simpl.
      split; [exact Hg|]. split; [done|].
      by rewrite Z.max_l, Z.min_r by lia.
    + destruct (Z.eqb_spec h 0); [lia|]. cbn [bind].
      rewrite scaled_side_value by done.
      destruct (Hlong w h Hh Hge) as [Hlo Hnear].
      destruct (resize_ok frame h w (w * size / h) size Hshape Hh Hw
                  ltac:(lia) Hsize) as (g & -> & Hg).
      simpl. eexists _, (w * size / h). split; [reflexivity|]. simpl.
      split; [exact Hg|]. split; [done|].
      by rewrite Z.max_r, Z.min_l by lia.
Qed.

Lemma slice_bounds_length (n start stop : Z) :
  0 ≤ n →
  0 ≤ snd (slice_bounds n start stop) - fst (slice_bounds n start stop) ≤ n.
Proof.
  intros Hn. unfold slice_bounds, slice_pos. simpl.
  destruct (Z.ltb_spec start 0), (Z.ltb_spec stop 0); lia.
Qed.

Lemma ceil_half (d : Z) :
  Qceiling (inject_Z d / inject_Z 2) = (d + 1) / 2.
Proof.
  rewrite Qceiling_div by lia.
  pose proof (Z.div_mod (- d) 2 ltac:(lia)).
  pose proof (Z.mod_pos_bound (- d) 2 ltac:(lia)).
  pose proof (Z.div_mod (d + 1) 2 ltac:(lia)).
  pose proof (Z.mod_pos_bound (d + 1) 2 ltac:(lia)). lia.
Qed.

Lemma slice_pos_inside (n i : Z) : 0 ≤ i ≤ n → slice_pos n i = i.
Proof. intros H. unfold slice_pos. destruct (Z.ltb_spec i 0); lia. Qed.

(** X6.  [center_crop] of a frame that is smaller than [size] along
    either side raises [AssertionError]: it never returns a crop of the
    wrong size. *)
Theorem center_crop_too_small (size h w c : Z) (rest : list Z)
    (frame : ndarray) :
  shape frame = h :: w :: c :: rest → 0 ≤ h → 0 ≤ w →
  h < size ∨ w < size →
  center_crop size frame = Raise AssertionError.
Proof.
  intros Hshape Hh Hw Hsmall.
  unfold center_crop, shape_at, getitem_hw. rewrite Hshape. simpl.
  pose proof (slice_bounds_length h
                (Qceiling (inject_Z (h - size) / inject_Z 2))
                (Qceiling (inject_Z (h - size) / inject_Z 2) + size) Hh) as Hy.
  pose proof (slice_bounds_length w
                (Qceiling (inject_Z (w - size) / inject_Z 2))
                (Qceiling (inject_Z (w - size) / inject_Z 2) + size) Hw) as Hx.
  unfold slice_bounds in Hy, Hx. simpl in Hy, Hx.
  match goal with |- bind (assert (?a =? size)) _ = _ =>
    destruct (Z.eqb_spec a size) as [Ea|]; [|done] end.
  simpl.
  match goal with |- bind (assert (?b =? size)) _ = _ =>
    destruct (Z.eqb_spec b size) as [Eb|]; [|done] end.
  lia.
Qed.

(** X7.  [center_crop] of a frame with both sides at least [size]
    returns the [size] x [size] window whose top and left margins are
    [ceil((h - size) / 2)] and [ceil((w - size) / 2)]: every entry of the
    crop is the entry of the frame shifted by these margins, and the
    margin before the window exceeds the one after it by at most one. *)
Theorem center_crop_window (size h w c : Z) (rest : list Z)
    (frame : ndarray) :
  shape frame = h :: w :: c :: rest → 0 ≤ size → size ≤ h → size ≤ w →
  let top := (h - size + 1) / 2 in
  let left := (w - size + 1) / 2 in
  ∃ cropped,
    center_crop size frame = Ok cropped
    ∧ shape cropped = size :: size :: c :: rest
    ∧ (∀ y x idx,
         item cropped (y :: x :: idx) = item frame (top + y :: left + x :: idx))
    ∧ h - size - top ≤ top ≤ h - size - top + 1
    ∧ w - size - left ≤ left ≤ w - size - left + 1.
Proof.
  intros Hshape Hsize Hh Hw top left.
  assert (0 ≤ top ∧ top + size ≤ h) as [Ht0 Ht1].
  { unfold top. pose proof (Z.div_mod (h - size + 1) 2 ltac:(lia)).
    pose proof (Z.mod_pos_bound (h - size + 1) 2 ltac:(lia)). lia. }
  assert (0 ≤ left ∧ left + size ≤ w) as [Hl0 Hl1].
  { unfold left. pose proof (Z.div_mod (w - size + 1) 2 ltac:(lia)).
    pose proof (Z.mod_pos_bound (w - size + 1) 2 ltac:(lia)). lia. }
  unfold center_crop, shape_at, getitem_hw. rewrite Hshape. simpl.
  rewrite !ceil_half. fold top. fold left.
  rewrite !slice_pos_inside by lia.
  replace (top `max` (top + size) - top) with size by lia.
  replace (left `max` (left + size) - left) with size by lia.
  rewrite Z.eqb_refl. simpl.
  eexists. split; [reflexivity|]. simpl. split; [done|]. split; [done|].
  unfold top, left.
  pose proof (Z.div_mod (h - size + 1) 2 ltac:(lia)).
  pose proof (Z.mod_pos_bound (h - size + 1) 2 ltac:(lia)).
  pose proof (Z.div_mod (w - size + 1) 2 ltac:(lia)).
  pose proof (Z.mod_pos_bound (w - size + 1) 2 ltac:(lia)). lia.
Qed.

Lemma broadcast_last_mismatch (s : list Z) (c k : Z) :
  c ≠ k → c ≠ 1 → k ≠ 1 →
  broadcast_shapes (s ++ [c]) [k] = Raise ValueError.
Proof.
  intros H1 H2 H3. unfold broadcast_shapes. rewrite rev_app_distr. simpl.
  assert (broadcast_rev (rev s) [] = Ok (rev s)) as -> by (by destruct (rev s)).
  simpl.
  destruct (Z.eqb_spec c k); [done|].
  destruct (Z.eqb_spec c 1); [done|].
  destruct (Z.eqb_spec k 1); done.
Qed.

Lemma broadcast_last_match (s : list Z) (c k : Z) :
  c ≠ 1 → k = c ∨ k = 1 →
  broadcast_shapes (s ++ [c]) [k] = Ok (s ++ [c]).
Proof.
  intros H1 H2. unfold broadcast_shapes. rewrite rev_app_distr. simpl.
  assert (broadcast_rev (rev s) [] = Ok (rev s)) as -> by (by destruct (rev s)).
  simpl.
  destruct (Z.eqb_spec c k).
  - simpl. by rewrite rev_involutive.
  - destruct (Z.eqb_spec c 1); [done|].
    destruct (Z.eqb_spec k 1); [|lia]. simpl. by rewrite rev_involutive.
Qed.

(** X8.  [normalize] raises [ValueError] when the number of channels of
    the array (its last axis, not 1) is matched neither by the length of
    [mean] nor by a single-element [mean], and likewise for [std]: the
    statistics are never silently truncated or repeated. *)
Theorem normalize_channel_mismatch (array : ndarray) (s : list Z) (c : Z)
    (mean std : list Q) :
  shape array = s ++ [c] → c ≠ 1 →
  (Z.of_nat (length mean) ≠ c ∧ length mean ≠ 1%nat)
  ∨ (Z.of_nat (length std) ≠ c ∧ length std ≠ 1%nat) →
  normalize array mean std = Raise ValueError.
Proof.
  intros Hshape Hc Hbad. unfold normalize, binop.
  set (a := if bool_decide (dtype_of array = uint8) then _ else array).
  assert (shape a = s ++ [c]) as Ha by (unfold a; by case_bool_decide).
  rewrite Ha. simpl.
  destruct (decide (Z.of_nat (length mean) = c
                    ∨ Z.of_nat (length mean) = 1)) as [Hm|Hm].
  - rewrite broadcast_last_match by done. simpl.
    destruct Hbad as [[? ?]|[? ?]]; [lia|].
    rewrite broadcast_last_mismatch; [done|lia..].
  - rewrite broadcast_last_mismatch; [done|lia..].
Qed.
End frame_geometry.

(** ** SlowFast: the values of the pre-processed clip *)

Section clip_values.
Local Open Scope Z_scope.
Variable cv2_resize : ndarray → Z → Z → result ndarray.
Hypothesis resize_ok : resize_contract cv2_resize.
Local Arguments Qfloor : simpl never.
Local Arguments Qceiling : simpl never.
Local Arguments Qmult : simpl never.
Local Arguments Qdiv : simpl never.
Local Arguments Qminus : simpl never.
Local Arguments inject_Z : simpl never.

Lemma array_items (l : list ndarray) (s : list Z) :
  l ≠ [] → Forall (λ a, shape a = s) l →
  ∃ b, array l = Ok b
       ∧ shape b = Z.of_nat (length l) :: s
       ∧ ∀ i f idx, l !! i = Some f → item b (Z.of_nat i :: idx) = item f idx.
Proof.
  intros Hne Hall. destruct l as [|a l]; [done|]. unfold array.
  assert (forallb (λ b, shape_eqb (shape b) (shape a)) (a :: l) = true) as ->.
  { apply Is_true_true, forallb_True. eapply Forall_impl; [exact Hall|].
    intros b Hb. simpl in Hb. unfold shape_eqb.
    apply bool_decide_pack. rewrite Hb. by inversion Hall. }
  eexists. split; [reflexivity|]. split.
  - simpl. by inversion Hall; subst.
  - intros i f idx Hi. cbn [item]. by rewrite Nat2Z.id, Hi.
Qed.

Lemma project_inside (d i : Z) : 0 ≤ i < d → (if d =? 1 then 0 else i) = i.
Proof. intros H. destruct (Z.eqb_spec d 1); lia. Qed.

Lemma normalize_items (a : ndarray) (t h w : Z) (mean std : list Q) :
  shape a = [t; h; w; 3] → dtype_of a = float32 →
  length mean = 3%nat → length std = 3%nat →
  ∃ b, normalize a mean std = Ok b
       ∧ shape b = [t; h; w; 3]
       ∧ ∀ k y x c, 0 ≤ k < t → 0 ≤ y < h → 0 ≤ x < w → 0 ≤ c < 3 →
           item b [k; y; x; c]
           = ((item a [k; y; x; c] - nth (Z.to_nat c) mean 0)
              / nth (Z.to_nat c) std 0)%Q.
Proof.
  intros Hshape Hdtype Hmean Hstd. unfold normalize, binop, broadcast_shapes.
  rewrite Hdtype. rewrite bool_decide_eq_false_2 by done.
  rewrite Hshape. simpl. rewrite Hmean, Hstd. simpl.
  eexists. split; [reflexivity|]. split; [reflexivity|].
  intros k y x c Hk Hy Hx Hc. simpl.
  unfold project_index. simpl.
  destruct (Z.eqb_spec t 1), (Z.eqb_spec h 1), (Z.eqb_spec w 1);
    repeat f_equal; lia.
Qed.

(** X9.  What [process_inputs] computes.  Entry [(0, c, t, y, x)] of the
    fast pathway is pixel [(y, x, c)] of one of the scaled and cropped
    frames, divided by 255, minus [mean[c]], divided by [std[c]]: the
    division by 255 happens exactly once.  The frame used at time [t]
    moves forward with [t] from the first frame to (for two or more
    time steps) the last, at the evenly spaced position
    [t * (T - 1) / (num_frames - 1)] of the [T] frames, rounded down to
    a frame or the frame before; a clip with fewer than [num_frames]
    frames is filled by repeating frames.  The slow pathway takes its
    entries from the fast one, at strictly increasing time steps. *)
Theorem process_inputs_values (frames : list ndarray)
    (num_frames crop_size : Z) (mean std : list Q) :
  frames ≠ [] → Forall bgr_image frames →
  0 < crop_size → 0 ≤ num_frames →
  length mean = 3%nat → length std = 3%nat →
  let T := Z.of_nat (length frames) in
  ∃ scaled cropped slow fast (frame_at slow_at : Z → Z),
    comprehension (scale_short_side cv2_resize crop_size) (Some <$> frames)
      = Ok scaled
    ∧ comprehension (center_crop crop_size) scaled = Ok cropped
    ∧ length cropped = length frames
    ∧ process_inputs cv2_resize (Some <$> frames)
                     num_frames crop_size mean std = Ok [slow; fast]
    ∧ (∀ c t y x frame,
         0 ≤ c < 3 → 0 ≤ t < num_frames →
         0 ≤ y < crop_size → 0 ≤ x < crop_size →
         cropped !! Z.to_nat (frame_at t) = Some frame →
         item fast [0; c; t; y; x]
         = ((item frame [y; x; c] / 255 - nth (Z.to_nat c) mean 0)
            / nth (Z.to_nat c) std 0)%Q)
    ∧ (∀ t, 0 ≤ t < num_frames → 0 ≤ frame_at t < T)
    ∧ (∀ t t', 0 ≤ t ≤ t' → t' < num_frames → frame_at t ≤ frame_at t')
    ∧ (0 < num_frames → frame_at 0 = 0)
    ∧ (1 < num_frames → frame_at (num_frames - 1) = T - 1)
    ∧ (∀ t, 0 ≤ t < num_frames →
         t * (T - 1) - (num_frames - 1)
         ≤ frame_at t * (num_frames - 1) ≤ t * (T - 1))
    ∧ (∀ c s y x,
         0 ≤ s < num_frames / 4 →
         item slow [0; c; s; y; x] = item fast [0; c; slow_at s; y; x])
    ∧ (∀ s, 0 ≤ s < num_frames / 4 → 0 ≤ slow_at s < num_frames)
    ∧ (∀ s s', 0 ≤ s < s' → s' < num_frames / 4 → slow_at s < slow_at s').
Proof using resize_ok.
  intros Hne Hframes Hsize Hnum Hmean Hstd T. unfold process_inputs.
  destruct (comprehension_Forall (scale_short_side cv2_resize crop_size)
              (λ f, ∃ g, f = Some g ∧ bgr_image g) (at_least crop_size)
              (Some <$> frames)) as (scaled & Hscaled & Hsc & Hlen1).
  { intros ? (g & -> & Hg). by apply scale_short_side_shape. }
  { apply Forall_fmap. eapply Forall_impl; [exact Hframes|].
    intros g Hg. by exists g. }
  destruct (comprehension_Forall (center_crop crop_size)
              (at_least crop_size)
              (λ a, shape a = [crop_size; crop_size; 3]) scaled)
    as (cropped & Hcropped & Hcr & Hlen2); [|done|].
  { intros a Ha. by apply center_crop_shape. }
  rewrite length_fmap in Hlen1.
  assert (length cropped = length frames) as Hlen by lia.
  exists scaled, cropped. rewrite Hscaled. cbn [bind]. rewrite Hcropped.
  cbn [bind].
  assert (cropped ≠ []) as Hne'.
  { intros ->. destruct frames; [done|]. simpl in *. lia. }
  destruct (array_items cropped _ Hne' Hcr) as (stacked & -> & Hst & Hstitem).
  cbn [bind].
  destruct (normalize_items (div_scalar (astype float32 stacked) 255)
              _ _ _ mean std Hst eq_refl Hmean Hstd)
    as (normed & -> & Hnormed & Hnitem).
  cbn [bind]. unfold transpose. rewrite Hnormed. simpl.
  set (tr := {| dtype_of := _ |}).
  assert (0 < Z.of_nat (length cropped)) as Ht by (destruct cropped; [done|simpl; lia]).
  destruct (take_linspace tr 3 (Z.of_nat (length cropped))
              [crop_size; crop_size] num_frames eq_refl Hnum (λ _, Ht))
    as (sampled & Hsampled & _ & Hsh & Hsitem).
  simpl in Hsampled.
  destruct (linspace_int 0 _ num_frames) as [indices|]; [|done].
  simpl in *. rewrite Hsampled. simpl.
  destruct (pack_pathway_output_linspace sampled 4 3 num_frames
              [crop_size; crop_size] Hsh Hnum ltac:(lia))
    as (slow & -> & Hslow & Hslitem).
  simpl.
  assert (num_frames / 4 ≤ num_frames) as Hquarter
    by (apply Z.div_le_upper_bound; lia).
  assert (0 ≤ T - 1) as HT by (unfold T; lia).
  eexists _, _, (λ t, t * (T - 1) / (num_frames - 1)),
    (λ s, s * (num_frames - 1) / (num_frames / 4 - 1)).
  do 3 (split; [done|]). split; [reflexivity|].
  split; [|split; [|split; [|split; [|split; [|split; [|split; [|split]]]]]]].
  - intros c t y x frame Hc Htr Hy Hx Hframe. simpl.
    rewrite Hsitem by done. simpl.
    rewrite Hlen in *. fold T in Hframe |- *.
    pose proof (linspace_index_range (T - 1) num_frames t HT Htr) as Hk.
    rewrite Hnitem by lia. simpl.
    rewrite <- (Z2Nat.id (t * (T - 1) / (num_frames - 1))) at 1 by lia.
    by rewrite (Hstitem _ _ _ Hframe).
  - intros t Ht'.
    pose proof (linspace_index_range (T - 1) num_frames t HT Ht'). lia.
  - intros t t' Htt Ht'. by apply linspace_index_monotone.
  - intros _. by rewrite Z.mul_0_l.
  - intros Hmany. by apply linspace_index_last.
  - intros t Ht'. by apply linspace_index_near.
  - intros c s y x Hs. simpl. by destruct (Hslitem c s [y; x] Hs) as [_ ->].
  - intros s Hs. destruct (Hslitem 0 s [] Hs) as [? _]. lia.
  - intros s s' Hss Hs'. apply linspace_index_increasing; lia.
Qed.
End clip_values.

(** ** SlowFast: more on the pathways and on degenerate inputs *)

Section pathway_edges.
Local Open Scope Z_scope.

(** X10.  With [alpha >= 1] the slow pathway never repeats a frame and
    keeps temporal order: the fast-pathway positions it picks are
    strictly increasing. *)
Theorem slow_pathway_frames_distinct (frames : ndarray) (alpha c t : Z)
    (rest : list Z) :
  shape frames = c :: t :: rest → 0 ≤ t → 0 < alpha →
  ∃ (slow_pathway : ndarray) (position : Z → Z),
    pack_pathway_output frames alpha = Ok [slow_pathway; frames]
    ∧ (∀ ch i idx, 0 ≤ i < t / alpha →
         item slow_pathway (ch :: i :: idx)
         = item frames (ch :: position i :: idx))
    ∧ (∀ i, 0 ≤ i < t / alpha → 0 ≤ position i < t)
    ∧ (∀ i j, 0 ≤ i < j → j < t / alpha → position i < position j).
Proof.
  intros Hshape Ht Halpha.
  destruct (pack_pathway_output_linspace frames alpha c t rest
              Hshape Ht Halpha) as (slow & Hpack & _ & Hitem).
  exists slow, (λ i, i * (t - 1) / (t / alpha - 1)).
  split; [done|]. split; [|split].
  - intros ch i idx Hi. by destruct (Hitem ch i idx Hi) as [_ ->].
  - intros i Hi. destruct (Hitem 0 i [] Hi) as [? _]. lia.
  - intros i j Hij Hj.
    assert (t / alpha ≤ t) by (apply Z.div_le_upper_bound; nia).
    apply linspace_index_increasing; lia.
Qed.

(** X11.  [pack_pathway_output] raises [ZeroDivisionError] for
    [alpha = 0], and [ValueError] for a negative [alpha] on a clip with
    at least one frame (a negative number of samples is asked of
    [np.linspace]); with [alpha] larger than the number of frames it
    returns an empty slow pathway instead of failing. *)
Theorem pack_pathway_output_bad_alpha (frames : ndarray) (alpha c t : Z)
    (rest : list Z) :
  shape frames = c :: t :: rest → 0 < t →
  (alpha = 0 → pack_pathway_output frames alpha = Raise ZeroDivisionError)
  ∧ (alpha < 0 → pack_pathway_output frames alpha = Raise ValueError)
  ∧ (t < alpha →
     ∃ slow_pathway,
       pack_pathway_output frames alpha = Ok [slow_pathway; frames]
       ∧ shape slow_pathway = c :: 0 :: rest).
Proof.
  intros Hshape Ht. split; [|split].
  - intros ->. unfold pack_pathway_output, shape_at. by rewrite Hshape.
  - intros Hneg. unfold pack_pathway_output, shape_at. rewrite Hshape. simpl.
    destruct (Z.eqb_spec alpha 0); [lia|]. simpl. unfold linspace_int.
    assert (t / alpha < 0) as Hq.
    { pose proof (Z.div_mod t alpha ltac:(lia)).
      pose proof (Z.mod_neg_bound t alpha Hneg). nia. }
    by destruct (Z.ltb_spec (t / alpha) 0); [|lia].
  - intros Hbig.
    destruct (pack_pathway_output_linspace frames alpha c t rest
                Hshape ltac:(lia) ltac:(lia)) as (slow & Hpack & Hsh & _).
    exists slow. split; [done|]. by rewrite Hsh, Z.div_small by lia.
Qed.

Lemma broadcast_one_axis (a b : Z) :
  (∃ d, broadcast_shapes [a] [b] = Ok [d])
  ∨ broadcast_shapes [a] [b] = Raise ValueError.
Proof.
  unfold broadcast_shapes. simpl.
  destruct (a =? b); [left; by eexists|].
  destruct (a =? 1); [left; by eexists|].
  destruct (b =? 1); [left; by eexists|by right].
Qed.

(** X12.  [process_inputs] of an empty list of frames raises
    [ValueError], whatever the other arguments: [np.array([])] has one
    axis, which either fails to broadcast against [mean] or [std] or
    cannot be transposed as a four-axis array. *)
Theorem process_inputs_no_frames
    (cv2_resize : ndarray → Z → Z → result ndarray)
    (num_frames crop_size : Z) (mean std : list Q) :
  process_inputs cv2_resize [] num_frames crop_size mean std
  = Raise ValueError.
Proof.
  unfold process_inputs, normalize, binop. simpl.
  destruct (broadcast_one_axis 0 (Z.of_nat (length mean))) as [[d1 ->]| ->];
    [|done].
  simpl.
  destruct (broadcast_one_axis d1 (Z.of_nat (length std))) as [[d2 ->]| ->];
    done.
Qed.
End pathway_edges.

(** ** SlowFast: probabilities, labels and the whole pipeline *)

Section labels.
Local Open Scope Z_scope.
Variable cv2_resize : ndarray → Z → Z → result ndarray.
Variables (exp : Q → Q) (argsort : list Q → list nat).
Hypothesis resize_ok : resize_contract cv2_resize.
Hypothesis argsort_ok : argsort_contract argsort.

(** The classes [classify] looks up are classes of the row. *)
Lemma top5_in_range (keys : list Q) (i : nat) :
  i ∈ take 5 (argsort keys) → (i < length keys)%nat.
Proof using argsort_ok.
  intros [a [Ha _]]%elem_of_take.
  destruct (argsort_ok keys) as [Hperm _].
  apply list_elem_of_lookup_2 in Ha. rewrite Hperm in Ha.
  apply elem_of_seq in Ha. lia.
Qed.

(** X14.  When the label table has an entry for every class of the
    first row, [classify] returns [min(5, number of classes)] labels,
    each of them the table's label of one of these classes: it raises
    neither [KeyError] nor [IndexError]. *)
Theorem classify_returns_labels (id_to_label_mapping : gmap Z string)
    (row : list Q) (rest : list (list Q)) :
  (∀ i, (i < length row)%nat →
        is_Some (id_to_label_mapping !! Z.of_nat i)) →
  ∃ names,
    classify exp argsort id_to_label_mapping (row :: rest) = Ok names
    ∧ length names = (5 `min` length row)%nat
    ∧ Forall (λ name, ∃ i, (i < length row)%nat
                           ∧ id_to_label_mapping !! Z.of_nat i = Some name)
             names.
Proof using argsort_ok.
  intros Hm. unfold classify, softmax. simpl.
  set (keys := Qmult (-1) <$> _).
  assert (length keys = length row) as Hlen
    by (unfold keys; by rewrite !length_fmap).
  destruct (labels_of_ok id_to_label_mapping (length row)
              (take 5 (argsort keys)) Hm) as (names & Hnames & Hn & Hall).
  { apply Forall_forall. intros i Hi. rewrite <- Hlen.
    by apply top5_in_range. }
  exists names. split; [exact Hnames|]. split; [|done].
  rewrite Hn, length_take.
  destruct (argsort_ok keys) as [Hperm _].
  by rewrite (Permutation_length Hperm), length_seq, Hlen.
Qed.

(** X15.  [classify] raises [KeyError] when the table has no entry under
    the integer class ids of a non-empty first row (as with a table keyed
    by strings, which the annotation [Dict[str, str]] suggests), and
    [IndexError] when the model returns no row at all. *)
Theorem classify_missing_labels (id_to_label_mapping : gmap Z string)
    (row : list Q) (rest : list (list Q)) :
  row ≠ [] →
  (∀ i, (i < length row)%nat → id_to_label_mapping !! Z.of_nat i = None) →
  classify exp argsort id_to_label_mapping (row :: rest) = Raise KeyError
  ∧ classify exp argsort id_to_label_mapping [] = Raise IndexError.
Proof using argsort_ok.
  intros Hne Hm. split; [|done]. unfold classify, softmax. simpl.
  set (keys := Qmult (-1) <$> _).
  assert (length keys = length row) as Hlen
    by (unfold keys; by rewrite !length_fmap).
  destruct (argsort_ok keys) as [Hperm _].
  destruct (argsort keys) as [|i l] eqn:Hsort.
  - apply Permutation_length in Hperm. rewrite length_seq, Hlen in Hperm.
    destruct row; simpl in *; [done|lia].
  - simpl. rewrite Hm; [done|]. rewrite <- Hlen.
    apply top5_in_range. rewrite Hsort. simpl. by left.
Qed.

Lemma collect_frames_prefix (video more : list ndarray) (todo : nat) :
  (todo ≤ length video)%nat →
  collect_frames (video ++ more) todo = collect_frames video todo.
Proof.
  revert todo. induction video as [|f video IH]; intros [|todo] H;
    simpl in *; try lia; try done. f_equal. apply IH. lia.
Qed.

(** X16.  [run_inference] reads only the first
    [num_frames * sampling_rate] frames of the video: whatever follows
    them has no influence on the result. *)
Theorem run_inference_reads_a_prefix (model : model)
    (video more : list ndarray) (top_k : Z)
    (id_to_label_mapping : gmap Z string)
    (num_frames sampling_rate crop_size : Z) (mean std : list Q) :
  num_frames * sampling_rate ≤ Z.of_nat (length video) →
  run_inference cv2_resize exp argsort model (video ++ more) top_k
    id_to_label_mapping num_frames sampling_rate crop_size mean std
  = run_inference cv2_resize exp argsort model video top_k
      id_to_label_mapping num_frames sampling_rate crop_size mean std.
Proof.
  intros Hlen. unfold run_inference.
  by rewrite collect_frames_prefix by lia.
Qed.

(** X17.  End to end: on a decoded video with at least
    [num_frames * sampling_rate] frames, a model that answers the two
    exactly shaped pathway tensors with one row of at least five class
    scores, and a label table covering these classes, [run_inference]
    returns exactly five labels of the table. *)
Theorem run_inference_succeeds (model : model) (video : list ndarray)
    (top_k : Z) (id_to_label_mapping : gmap Z string) (classes : nat)
    (num_frames sampling_rate crop_size : Z) (mean std : list Q) :
  Forall bgr_image video → 0 < crop_size → 0 ≤ num_frames →
  length mean = 3%nat → length std = 3%nat →
  0 < num_frames * sampling_rate ≤ Z.of_nat (length video) →
  (5 ≤ classes)%nat →
  (∀ slow fast,
      shape slow = [1; 3; num_frames / 4; crop_size; crop_size] →
      shape fast = [1; 3; num_frames; crop_size; crop_size] →
      ∃ row, predict model [slow; fast] = Ok [row] ∧ length row = classes) →
  (∀ i, (i < classes)%nat → is_Some (id_to_label_mapping !! Z.of_nat i)) →
  ∃ names,
    run_inference cv2_resize exp argsort model video top_k
      id_to_label_mapping num_frames sampling_rate crop_size mean std
    = Ok names
    ∧ length names = 5%nat
    ∧ Forall (λ name, ∃ i, (i < classes)%nat
                           ∧ id_to_label_mapping !! Z.of_nat i = Some name)
             names.
Proof using resize_ok argsort_ok.
  intros Hvideo Hsize Hnum Hmean Hstd Hlen Hclasses Hmodel Hlabels.
  unfold run_inference. rewrite collect_frames_enough by lia.
  destruct (process_inputs_shapes cv2_resize resize_ok
              (take (Z.to_nat (num_frames * sampling_rate)) video)
              num_frames crop_size mean std)
    as (slow & fast & -> & Hfast & Hslow); try done.
  { destruct video; simpl in *; [lia|].
    destruct (Z.to_nat (num_frames * sampling_rate)) eqn:E; [lia|done]. }
  { by apply Forall_take. }
  cbn [bind].
  destruct (Hmodel slow fast Hslow Hfast) as (row & -> & Hrow).
  cbn [bind]. unfold classify, softmax. simpl.
  set (keys := Qmult (-1) <$> _).
  assert (length keys = classes) as Hk
    by (unfold keys; by rewrite !length_fmap).
  destruct (labels_of_ok id_to_label_mapping classes
              (take 5 (argsort keys)) Hlabels) as (names & Hnames & Hn & Hall).
  { apply Forall_forall. intros i Hi. rewrite <- Hk.
    by apply top5_in_range. }
  exists names. split; [exact Hnames|]. split; [|done].
  rewrite Hn, length_take.
  destruct (argsort_ok keys) as [Hperm _].
  rewrite (Permutation_length Hperm), length_seq. lia.
Qed.
End labels.

(** ** EnCodec: what the adaptors and the frame functions do *)

Section encodec_adaptors.
Local Open Scope Z_scope.
Variable convert_audio : ndarray → Z → Z → Z → ndarray.

(** [int(x)] drops the fractional part, towards zero. *)
Lemma int_of_trunc (q : Q) :
  (0 <= q → inject_Z (int_of q) <= q ∧ q < inject_Z (int_of q) + 1)%Q
  ∧ (q <= 0 → q <= inject_Z (int_of q) ∧ inject_Z (int_of q) - 1 < q)%Q.
Proof.
  destruct q as [n d]. unfold Qle, Qlt, int_of. simpl.
  pose proof (Z.quot_rem' n (Z.pos d)) as Hqr.
  split; intros H.
  - pose proof (Z.rem_bound_pos n (Z.pos d)) as Hb. lia.
  - pose proof (Z.rem_bound_pos_neg n (Z.pos d)) as Hb. lia.
Qed.

(** X18.  [preprocess] hands [convert_audio] a float32 tensor with one
    leading axis more than the input, together with the sample rate and
    the model's rate and channel count; for 16-bit input samples every
    entry of that tensor is the sample divided by 32768, in [-1, 1). *)
Theorem preprocess_scales_to_unit_range (input : ndarray)
    (sample_rate model_sr model_channels : Z) :
  (∀ idx, ∃ z, item input idx = inject_Z z ∧ is_int16 z) →
  ∃ scaled,
    preprocess convert_audio input sample_rate model_sr model_channels
    = convert_audio scaled sample_rate model_sr model_channels
    ∧ dtype_of scaled = float32
    ∧ shape scaled = 1 :: shape input
    ∧ ∀ idx, item scaled idx = (item input (tail idx) / inject_Z 32768)%Q
             ∧ (-1 <= item scaled idx < 1)%Q.
Proof.
  intros Hint.
  exists (expand_dims (div_scalar (astype float32 input) (inject_Z (2 ^ 15)))).
  split; [done|]. split; [done|]. split; [done|].
  intros idx. split; [done|]. simpl.
  destruct (Hint (tail idx)) as (z & -> & Hz). unfold is_int16 in Hz.
  change (2 ^ 15) with 32768 in *.
  split.
  - apply Qle_shift_div_l; [done|]. unfold Qle. simpl. lia.
  - apply Qlt_shift_div_r; [done|]. unfold Qlt. simpl. lia.
Qed.

(** X19.  [postprocess] of a decoded [1, 1, n] tensor ([n] other than 1)
    with samples in [-1, 1) is an int16 array of shape [n]: sample [i] is
    [32768 * x_i] with its fractional part dropped (towards zero), a
    value of the 16-bit range, so that the cast does not wrap. *)
Theorem postprocess_quantises (out : ndarray) (n : Z) :
  shape out = [1; 1; n] → n ≠ 1 →
  dtype_of (postprocess out) = int16
  ∧ shape (postprocess out) = [n]
  ∧ ∀ i : Z,
      let x := item out [0; 0; i] in
      let q := (x * inject_Z 32768)%Q in
      (-1 <= x < 1)%Q →
      ∃ z, item (postprocess out) [i] = inject_Z z
           ∧ is_int16 z
           ∧ (0 <= q → inject_Z z <= q ∧ q < inject_Z z + 1)%Q
           ∧ (q <= 0 → q <= inject_Z z ∧ inject_Z z - 1 < q)%Q.
Proof.
  intros Hshape Hn. split; [done|]. split.
  { unfold postprocess. simpl. rewrite Hshape.
    rewrite !filter_cons_False by (intros H; by apply H).
    by rewrite filter_cons_True. }
  intros i x q Hx. exists (int_of q).
  destruct (int_of_trunc q) as [Hpos Hneg].
  assert (-32768 <= q < 32768)%Q as Hq.
  { unfold q. change (inject_Z 32768) with (32768 # 1)%Q. lra. }
  assert (is_int16 (int_of q)) as Hz.
  { unfold is_int16. change (2 ^ 15) with 32768.
    assert (inject_Z (-32768) <= inject_Z (int_of q)
            ∧ inject_Z (int_of q) < inject_Z 32768)%Q as [Hlo Hhi].
    { change (inject_Z (-32768)) with (-32768 # 1)%Q.
      change (inject_Z 32768) with (32768 # 1)%Q.
      destruct (Qlt_le_dec q 0) as [Hlt|Hge].
      - destruct Hneg as [H1 H2]; [lra|]. lra.
      - destruct Hpos as [H1 H2]; [lra|]. lra. }
    rewrite <- Zle_Qle in Hlo. rewrite <- Zlt_Qlt in Hhi. lia. }
  split; [|done].
  unfold postprocess. simpl. rewrite Hshape. simpl.
  destruct (Z.eqb_spec n 1) as [|_]; [done|]. simpl.
  unfold wrap_signed. f_equal.
  change (Qmult (item out [0; 0; i]) (inject_Z (2 ^ 15))) with q.
  unfold is_int16 in Hz. change (2 ^ 15) with 32768 in Hz.
  change (2 ^ (16 - 1)) with 32768. change (2 ^ 16) with 65536.
  rewrite Z.mod_small; lia.
Qed.
End encodec_adaptors.

Section encodec_frames.
Variable compiled_encoder : ndarray → list ndarray.
Variable compiled_decoder : list ndarray → list ndarray.

(** X20.  [decode_frame] after [encode_frame]: with an encoder of at
    least one output the frame is encoded without error, the scale is
    kept exactly when the encoder has two outputs, and the decoder is
    then called on the encoder's two tensors, otherwise on its first
    tensor alone.  An encoder without outputs raises. *)
Theorem decode_frame_after_encode_frame (x : ndarray) :
  (compiled_encoder x ≠ [] →
   ∃ codes scale,
     encode_frame compiled_encoder x = Ok (codes, scale)
     ∧ (is_Some scale ↔ length (compiled_encoder x) = 2%nat)
     ∧ decode_frame compiled_decoder (codes, scale)
       = output (compiled_decoder
                   (if bool_decide (length (compiled_encoder x) = 2%nat)
                    then compiled_encoder x
                    else take 1 (compiled_encoder x))) 0)
  ∧ (compiled_encoder x = [] →
     encode_frame compiled_encoder x = Raise RuntimeError).
Proof.
  unfold encode_frame, decode_frame. split.
  - intros Hne.
    destruct (compiled_encoder x) as [|codes [|scale [|extra rest]]];
      [done| | |].
    + exists codes, None. split; [done|]. split; [|done].
      split; [by intros [? ?]|done].
    + exists codes, (Some scale). split; [done|]. split; [|done].
      split; [done|by eexists].
    + exists codes, None. split; [done|]. split; [|done].
      split; [by intros [? ?]|done].
  - by intros ->.
Qed.
End encodec_frames.

(** ** Conversion: what the cells write and what they ignore *)

Section conversion_files.
Variable Model : Type.
Variable convert_model : option string → result Model.
Variable serialize : Model → string * string.
Variable read_model : option string → option string → result Model.
Variable onnx_export : string.

Lemma save_model_other (m : Model) (path p : string) (fs : files) :
  p ≠ path → p ≠ bin_path path →
  save_model Model serialize m path fs !! p = fs !! p.
Proof.
  intros H1 H2. unfold save_model. destruct (serialize m) as [xml bin].
  by rewrite !lookup_insert_ne.
Qed.

Lemma save_model_files (m : Model) (path : string) (fs : files) :
  bin_path path ≠ path →
  save_model Model serialize m path fs !! path = Some (serialize m).1
  ∧ save_model Model serialize m path fs !! bin_path path
    = Some (serialize m).2.
Proof.
  intros Hne. unfold save_model. destruct (serialize m) as [xml bin].
  split.
  - by rewrite lookup_insert_ne, lookup_insert_eq.
  - by rewrite lookup_insert_eq.
Qed.

Lemma save_model_twice (m : Model) (path : string) (fs : files) :
  bin_path path ≠ path →
  save_model Model serialize m path (save_model Model serialize m path fs)
  = save_model Model serialize m path fs.
Proof.
  intros Hne. unfold save_model. destruct (serialize m) as [xml bin].
  apply map_eq. intros p.
  destruct (decide (p = bin_path path)) as [->|H1].
  - by rewrite !lookup_insert_eq.
  - rewrite !(lookup_insert_ne _ (bin_path path)) by done.
    destruct (decide (p = path)) as [->|H2].
    + by rewrite !lookup_insert_eq.
    + by rewrite !lookup_insert_ne.
Qed.

(** X21.  The cached conversion cells touch nothing but the artifact:
    every file other than the structure file and its weights file (and,
    in the EnCodec cell, the exported ONNX file) is after the cell what
    it was before, whether the cell hits, converts or fails. *)
Theorem conversion_cells_footprint (onnx_path ir_path p : string)
    (fs : files) :
  (p ≠ ir_path → p ≠ bin_path ir_path →
   (ir_cmodel_cell Model convert_model serialize read_model
      onnx_path ir_path fs).1 !! p = fs !! p)
  ∧ (p ≠ OV_ENCODER_PATH → p ≠ bin_path OV_ENCODER_PATH →
     p ≠ "encodec_encoder.onnx" →
     (ov_encoder_cell Model convert_model serialize read_model
        onnx_export fs).1 !! p = fs !! p).
Proof.
  split.
  - intros H1 H2. unfold ir_cmodel_cell. case_bool_decide; [done|].
    destruct (convert_model _); [|done]. simpl. by apply save_model_other.
  - intros H1 H2 H3. unfold ov_encoder_cell. case_bool_decide; [done|].
    destruct (convert_model _); simpl.
    + rewrite save_model_other by done. by rewrite lookup_insert_ne.
    + by rewrite lookup_insert_ne.
Qed.

(** X22.  A miss on a convertible ONNX file returns the converted model
    and leaves both artifact files behind; the next run of the cell
    converts nothing and returns what [read_model] makes of exactly the
    two serialised files. *)
Theorem conversion_miss_then_read (onnx_path ir_path : string)
    (fs : files) (m : Model) :
  fs !! ir_path = None →
  convert_model (fs !! onnx_path) = Ok m →
  bin_path ir_path ≠ ir_path →
  let cell := ir_cmodel_cell Model convert_model serialize read_model
                onnx_path ir_path in
  (cell fs).2 = Ok m
  ∧ (cell fs).1 !! ir_path = Some (serialize m).1
  ∧ (cell fs).1 !! bin_path ir_path = Some (serialize m).2
  ∧ cell (cell fs).1
    = ((cell fs).1,
       read_model (Some (serialize m).1) (Some (serialize m).2)).
Proof.
  intros Hmiss Hconv Hne cell.
  assert (cell fs = (save_model Model serialize m ir_path fs, Ok m)) as ->.
  { unfold cell, ir_cmodel_cell. rewrite bool_decide_eq_false_2.
    - by rewrite Hconv.
    - rewrite Hmiss. by intros [? ?]. }
  simpl. destruct (save_model_files m ir_path fs Hne) as [Hxml Hbin].
  split; [done|]. split; [done|]. split; [done|].
  unfold cell, ir_cmodel_cell. rewrite bool_decide_eq_true_2.
  - by rewrite Hxml, Hbin.
  - rewrite Hxml. by eexists.
Qed.

(** X23.  The cache is keyed by the artifact's path alone: once the
    structure file exists, replacing or deleting the ONNX source changes
    neither the files nor the model the cell returns; the artifact is
    never refreshed. *)
Theorem conversion_cache_ignores_source (onnx_path ir_path : string)
    (fs : files) (source : option string) :
  is_Some (fs !! ir_path) →
  onnx_path ≠ ir_path → onnx_path ≠ bin_path ir_path →
  let cell := ir_cmodel_cell Model convert_model serialize read_model
                onnx_path ir_path in
  let changed := partial_alter (λ _, source) onnx_path fs in
  cell changed = (changed, (cell fs).2).
Proof.
  intros Hhit H1 H2 cell changed. unfold cell, ir_cmodel_cell.
  assert (changed !! ir_path = fs !! ir_path) as Hxml
    by (by apply lookup_partial_alter_ne).
  assert (changed !! bin_path ir_path = fs !! bin_path ir_path) as Hbin
    by (by apply lookup_partial_alter_ne).
  rewrite !bool_decide_eq_true_2 by (by rewrite ?Hxml).
  simpl. by rewrite Hxml, Hbin.
Qed.

(** X24.  The SlowFast cells look for no cached artifact: whatever was
    stored under [IR_PATH] before, a successful conversion replaces both
    files by the serialised model and reads the model back from exactly
    these; running the cells again on the result changes nothing. *)
Theorem slowfast_cells_overwrite (onnx_model_path ir_path : string)
    (fs : files) (m : Model) :
  convert_model (fs !! onnx_model_path) = Ok m →
  bin_path ir_path ≠ ir_path →
  onnx_model_path ≠ ir_path → onnx_model_path ≠ bin_path ir_path →
  let cells := slowfast_convert_cells Model convert_model serialize
                 read_model onnx_model_path ir_path in
  (cells fs).1 !! ir_path = Some (serialize m).1
  ∧ (cells fs).1 !! bin_path ir_path = Some (serialize m).2
  ∧ (cells fs).2 = read_model (Some (serialize m).1) (Some (serialize m).2)
  ∧ cells (cells fs).1 = cells fs.
Proof.
  intros Hconv Hne H1 H2 cells.
  destruct (save_model_files m ir_path fs Hne) as [Hxml Hbin].
  assert (cells fs
          = (save_model Model serialize m ir_path fs,
             read_model (Some (serialize m).1) (Some (serialize m).2)))
    as Hrun.
  { unfold cells, slowfast_convert_cells. rewrite Hconv. simpl.
    by rewrite Hxml, Hbin. }
  rewrite Hrun. simpl. split; [done|]. split; [done|]. split; [done|].
  unfold cells, slowfast_convert_cells.
  rewrite save_model_other, Hconv by done.
  by rewrite save_model_twice, Hxml, Hbin.
Qed.
End conversion_files.

(** ** The further properties on the reference data *)

(** X1 at the notebook's rate and coverage. *)
Lemma compute_partial_slices_succeeds_witness :
  is_ok (compute_partial_slices freevc_hparams 40000 (13 # 10) (3 # 4)) = true
  ↔ (0 < 3 # 4)%Q ∧ (3 # 4 <= 1)%Q ∧ samples_per_frame freevc_hparams ≠ 0%Z
    ∧ ¬ (13 # 10 == 0)%Q
    ∧ (0 < frame_step freevc_hparams (13 # 10)
       ≤ partials_n_frames freevc_hparams)%Z.
Proof.
  apply (compute_partial_slices_succeeds_iff freevc_hparams (13 # 10) (3 # 4)
           40000).
Defined.

(** X5 at a 300 x 400 frame scaled to 256. *)
Lemma scale_short_side_exact_witness :
  ∃ (scaled : ndarray) (long : Z),
    scale_short_side resize_nearest 256 (Some (grey_frame 300 400)) = Ok scaled
    ∧ shape scaled
      = (if (400 <? 300)%Z then [long; 256; 3]%Z else [256; long; 3]%Z)
    ∧ (256 ≤ long)%Z
    ∧ (300 `max` 400 * 256 - 300 `min` 400
       ≤ long * (300 `min` 400) ≤ 300 `max` 400 * 256)%Z.
Proof.
  apply (scale_short_side_exact resize_nearest resize_nearest_contract
           256 300 400 (grey_frame 300 400)); reflexivity.
Defined.

(** X6 at a frame of height 200 cropped to 256. *)
Lemma center_crop_too_small_witness :
  center_crop 256 (grey_frame 200 400) = Raise AssertionError.
Proof.
  apply (center_crop_too_small 256 200 400 3 [] (grey_frame 200 400)).
  - reflexivity.
  - discriminate.
  - discriminate.
  - left. reflexivity.
Defined.

(** X7 at a 300 x 401 frame cropped to 256: margins 22 and 73. *)
Lemma center_crop_window_witness :
  let top := ((300 - 256 + 1) / 2)%Z in
  let left := ((401 - 256 + 1) / 2)%Z in
  ∃ cropped,
    center_crop 256 (grey_frame 300 401) = Ok cropped
    ∧ shape cropped = [256; 256; 3]%Z
    ∧ (∀ y x idx,
         item cropped (y :: x :: idx)
         = item (grey_frame 300 401) (top + y :: left + x :: idx)%Z)
    ∧ (300 - 256 - top ≤ top ≤ 300 - 256 - top + 1)%Z
    ∧ (401 - 256 - left ≤ left ≤ 401 - 256 - left + 1)%Z.
Proof.
  apply (center_crop_window 256 300 401 3 [] (grey_frame 300 401)).
  - reflexivity.
  - discriminate.
  - discriminate.
  - discriminate.
Defined.

(** X8 at a two-element [mean] for a three-channel frame. *)
Lemma normalize_channel_mismatch_witness :
  normalize (grey_frame 2 2) [1; 2]%Q STD = Raise ValueError.
Proof.
  apply (normalize_channel_mismatch (grey_frame 2 2) [2; 2]%Z 3
           [1; 2]%Q STD).
  - reflexivity.
  - discriminate.
  - left. split; discriminate.
Defined.

(** X9 at two frames of different sizes and the notebook's constants. *)
Lemma process_inputs_values_witness :
  let clip := [grey_frame 300 400; grey_frame 256 256] in
  let T := Z.of_nat (length clip) in
  ∃ scaled cropped slow fast (frame_at slow_at : Z → Z),
    comprehension (scale_short_side resize_nearest CROP_SIZE) (Some <$> clip)
      = Ok scaled
    ∧ comprehension (center_crop CROP_SIZE) scaled = Ok cropped
    ∧ length cropped = length clip
    ∧ process_inputs resize_nearest (Some <$> clip)
        NUM_FRAMES CROP_SIZE MEAN STD = Ok [slow; fast]
    ∧ (∀ c t y x frame,
         (0 ≤ c < 3)%Z → (0 ≤ t < NUM_FRAMES)%Z →
         (0 ≤ y < CROP_SIZE)%Z → (0 ≤ x < CROP_SIZE)%Z →
         cropped !! Z.to_nat (frame_at t) = Some frame →
         item fast [0; c; t; y; x]%Z
         = ((item frame [y; x; c] / 255 - nth (Z.to_nat c) MEAN 0)
            / nth (Z.to_nat c) STD 0)%Q)
    ∧ (∀ t, (0 ≤ t < NUM_FRAMES)%Z → (0 ≤ frame_at t < T)%Z)
    ∧ (∀ t t', (0 ≤ t ≤ t')%Z → (t' < NUM_FRAMES)%Z →
         (frame_at t ≤ frame_at t')%Z)
    ∧ ((0 < NUM_FRAMES)%Z → frame_at 0%Z = 0%Z)
    ∧ ((1 < NUM_FRAMES)%Z → frame_at (NUM_FRAMES - 1)%Z = (T - 1)%Z)
    ∧ (∀ t, (0 ≤ t < NUM_FRAMES)%Z →
         (t * (T - 1) - (NUM_FRAMES - 1)
          ≤ frame_at t * (NUM_FRAMES - 1) ≤ t * (T - 1))%Z)
    ∧ (∀ c s y x,
         (0 ≤ s < NUM_FRAMES / 4)%Z →
         item slow [0; c; s; y; x]%Z = item fast [0; c; slow_at s; y; x]%Z)
    ∧ (∀ s, (0 ≤ s < NUM_FRAMES / 4)%Z → (0 ≤ slow_at s < NUM_FRAMES)%Z)
    ∧ (∀ s s', (0 ≤ s < s')%Z → (s' < NUM_FRAMES / 4)%Z →
         (slow_at s < slow_at s')%Z).
Proof.
  apply (process_inputs_values resize_nearest resize_nearest_contract
           [grey_frame 300 400; grey_frame 256 256]
           NUM_FRAMES CROP_SIZE MEAN STD).
  - discriminate.
  - repeat constructor; eexists _, _;
      (split; [reflexivity | split; reflexivity]).
  - reflexivity.
  - discriminate.
  - reflexivity.
  - reflexivity.
Defined.

(** X10 at 32 frames and [alpha = 4]. *)
Lemma slow_pathway_frames_distinct_witness :
  ∃ (slow_pathway : ndarray) (position : Z → Z),
    pack_pathway_output (ramp_clip 32) 4 = Ok [slow_pathway; ramp_clip 32]
    ∧ (∀ ch i idx, (0 ≤ i < 32 / 4)%Z →
         item slow_pathway (ch :: i :: idx)
         = item (ramp_clip 32) (ch :: position i :: idx))
    ∧ (∀ i, (0 ≤ i < 32 / 4)%Z → (0 ≤ position i < 32)%Z)
    ∧ (∀ i j, (0 ≤ i < j)%Z → (j < 32 / 4)%Z → (position i < position j)%Z).
Proof.
  apply (slow_pathway_frames_distinct (ramp_clip 32) 4 1 32 [1; 1]%Z).
  - reflexivity.
  - discriminate.
  - reflexivity.
Defined.

(** X11 at 32 frames and [alpha = 0]. *)
Lemma pack_pathway_output_bad_alpha_witness :
  (0 = 0 → pack_pathway_output (ramp_clip 32) 0 = Raise ZeroDivisionError)%Z
  ∧ ((0 < 0)%Z → pack_pathway_output (ramp_clip 32) 0 = Raise ValueError)
  ∧ ((32 < 0)%Z →
     ∃ slow_pathway,
       pack_pathway_output (ramp_clip 32) 0 = Ok [slow_pathway; ramp_clip 32]
       ∧ shape slow_pathway = [1; 0; 1; 1]%Z).
Proof.
  apply (pack_pathway_output_bad_alpha (ramp_clip 32) 0 1 32 [1; 1]%Z).
  - reflexivity.
  - reflexivity.
Defined.

(** X14 on the sample scores and labels. *)
Lemma classify_returns_labels_witness :
  ∃ names,
    classify exp_like argsort_stable sample_labels [sample_scores] = Ok names
    ∧ length names = (5 `min` length sample_scores)%nat
    ∧ Forall (λ name, ∃ i, (i < length sample_scores)%nat
                           ∧ sample_labels !! Z.of_nat i = Some name)
             names.
Proof.
  apply (classify_returns_labels exp_like argsort_stable
           argsort_stable_contract sample_labels sample_scores []).
  apply sample_labels_cover.
Defined.

(** X15 on the sample scores and an empty table. *)
Lemma classify_missing_labels_witness :
  classify exp_like argsort_stable ∅ [sample_scores] = Raise KeyError
  ∧ classify exp_like argsort_stable ∅ [] = Raise IndexError.
Proof.
  apply (classify_missing_labels exp_like argsort_stable
           argsort_stable_contract ∅ sample_scores []).
  - discriminate.
  - intros i _. apply lookup_empty.
Defined.

(** X16 on a two-frame clip followed by a third frame. *)
Lemma run_inference_reads_a_prefix_witness :
  run_inference resize_nearest exp_like argsort_stable sample_model
    ([grey_frame 2 3; grey_frame 2 3] ++ [grey_frame 5 5]) 5 sample_labels
    1 2 2 MEAN STD
  = run_inference resize_nearest exp_like argsort_stable sample_model
      [grey_frame 2 3; grey_frame 2 3] 5 sample_labels 1 2 2 MEAN STD.
Proof.
  apply (run_inference_reads_a_prefix resize_nearest exp_like argsort_stable
           sample_model [grey_frame 2 3; grey_frame 2 3] [grey_frame 5 5]
           5 sample_labels 1 2 2 MEAN STD).
  discriminate.
Defined.

(** X17 on a two-frame clip and the seven-class sample model. *)
Lemma run_inference_succeeds_witness :
  ∃ names,
    run_inference resize_nearest exp_like argsort_stable sample_model
      [grey_frame 2 3; grey_frame 2 3] 5 sample_labels 1 2 2 MEAN STD
    = Ok names
    ∧ length names = 5%nat
    ∧ Forall (λ name, ∃ i, (i < 7)%nat
                           ∧ sample_labels !! Z.of_nat i = Some name)
             names.
Proof.
  apply (run_inference_succeeds resize_nearest exp_like argsort_stable
           resize_nearest_contract argsort_stable_contract
           sample_model [grey_frame 2 3; grey_frame 2 3] 5 sample_labels 7
           1 2 2 MEAN STD).
  - repeat constructor; eexists _, _;
      (split; [reflexivity | split; reflexivity]).
  - reflexivity.
  - discriminate.
  - reflexivity.
  - reflexivity.
  - split; [reflexivity | discriminate].
  - lia.
  - intros slow fast _ _. exists sample_scores. split; reflexivity.
  - apply sample_labels_cover.
Defined.

Lemma waveform_int16 (samples : list Z) :
  Forall is_int16 samples →
  ∀ idx, ∃ z, item (waveform samples) idx = inject_Z z ∧ is_int16 z.
Proof.
  intros Hall idx.
  assert (is_int16 0) as H0 by (unfold is_int16; lia).
  destruct idx as [|i [|??]]; [by exists 0%Z| |by exists 0%Z].
  simpl. destruct (samples !! Z.to_nat i) as [z|] eqn:Hz.
  - exists z. split.
    + apply nth_lookup_Some. by rewrite list_lookup_fmap, Hz.
    + rewrite Forall_forall in Hall. apply Hall.
      by eapply list_elem_of_lookup_2.
  - exists 0%Z. split; [|done]. apply nth_overflow.
    rewrite length_fmap. by apply lookup_ge_None.
Qed.

(** X18 on a four-sample waveform at the model's rate. *)
Lemma preprocess_scales_to_unit_range_witness :
  ∃ scaled,
    preprocess convert_audio_matching (waveform [0; 1; -32768; 32767]%Z)
      24000 24000 1
    = convert_audio_matching scaled 24000 24000 1
    ∧ dtype_of scaled = float32
    ∧ shape scaled = (1 :: shape (waveform [0; 1; -32768; 32767]%Z))%Z
    ∧ ∀ idx,
        item scaled idx
        = (item (waveform [0; 1; -32768; 32767]%Z) (tail idx)
           / inject_Z 32768)%Q
        ∧ (-1 <= item scaled idx < 1)%Q.
Proof.
  apply (preprocess_scales_to_unit_range convert_audio_matching
           (waveform [0; 1; -32768; 32767]%Z) 24000 24000 1).
  apply waveform_int16. repeat constructor; discriminate.
Defined.

(** X19 on a decoded four-sample tensor. *)
Lemma postprocess_quantises_witness :
  let out := expand_dims (expand_dims
               (of_list float32 [0; 1 # 2; -1; 32767 # 32768]%Q)) in
  dtype_of (postprocess out) = int16
  ∧ shape (postprocess out) = [4]%Z
  ∧ ∀ i : Z,
      let x := item out [0; 0; i]%Z in
      let q := (x * inject_Z 32768)%Q in
      (-1 <= x < 1)%Q →
      ∃ z, item (postprocess out) [i] = inject_Z z
           ∧ is_int16 z
           ∧ (0 <= q → inject_Z z <= q ∧ q < inject_Z z + 1)%Q
           ∧ (q <= 0 → q <= inject_Z z ∧ inject_Z z - 1 < q)%Q.
Proof.
  apply (postprocess_quantises
           (expand_dims (expand_dims
              (of_list float32 [0; 1 # 2; -1; 32767 # 32768]%Q))) 4).
  - reflexivity.
  - discriminate.
Defined.

(** X20 on an encoder with a scale output. *)
Lemma decode_frame_after_encode_frame_witness :
  let encoder := λ x : ndarray, [x; waveform [1]%Z] in
  let decoder := λ inputs : list ndarray, inputs in
  (encoder (waveform [7]%Z) ≠ [] →
   ∃ codes scale,
     encode_frame encoder (waveform [7]%Z) = Ok (codes, scale)
     ∧ (is_Some scale ↔ length (encoder (waveform [7]%Z)) = 2%nat)
     ∧ decode_frame decoder (codes, scale)
       = output (decoder
                   (if bool_decide (length (encoder (waveform [7]%Z)) = 2%nat)
                    then encoder (waveform [7]%Z)
                    else take 1 (encoder (waveform [7]%Z)))) 0)
  ∧ (encoder (waveform [7]%Z) = [] →
     encode_frame encoder (waveform [7]%Z) = Raise RuntimeError).
Proof.
  apply (decode_frame_after_encode_frame
           (λ x : ndarray, [x; waveform [1]%Z])
           (λ inputs : list ndarray, inputs) (waveform [7]%Z)).
Defined.

(** X21 at a file next to the FreeVC artifact. *)
Lemma conversion_cells_footprint_witness :
  ("notes.txt" ≠ "cmodel.xml" → "notes.txt" ≠ bin_path "cmodel.xml" →
   (ir_cmodel_cell string sample_convert sample_serialize sample_read
      "cmodel.onnx" "cmodel.xml"
      {[ "cmodel.onnx" := "graph"; "notes.txt" := "kept" ]}).1 !! "notes.txt"
   = ({[ "cmodel.onnx" := "graph"; "notes.txt" := "kept" ]} : files)
       !! "notes.txt")
  ∧ ("notes.txt" ≠ OV_ENCODER_PATH → "notes.txt" ≠ bin_path OV_ENCODER_PATH →
     "notes.txt" ≠ "encodec_encoder.onnx" →
     (ov_encoder_cell string sample_convert sample_serialize sample_read
        "exported"
        {[ "cmodel.onnx" := "graph"; "notes.txt" := "kept" ]}).1 !! "notes.txt"
     = ({[ "cmodel.onnx" := "graph"; "notes.txt" := "kept" ]} : files)
         !! "notes.txt").
Proof.
  apply (conversion_cells_footprint string sample_convert sample_serialize
           sample_read "exported" "cmodel.onnx" "cmodel.xml" "notes.txt"
           {[ "cmodel.onnx" := "graph"; "notes.txt" := "kept" ]}).
Defined.

(** X22 on a directory that holds only the ONNX file. *)
Lemma conversion_miss_then_read_witness :
  let cell := ir_cmodel_cell string sample_convert sample_serialize
                sample_read "cmodel.onnx" "cmodel.xml" in
  let fs : files := {[ "cmodel.onnx" := "graph" ]} in
  (cell fs).2 = Ok "graph"
  ∧ (cell fs).1 !! "cmodel.xml" = Some (sample_serialize "graph").1
  ∧ (cell fs).1 !! bin_path "cmodel.xml" = Some (sample_serialize "graph").2
  ∧ cell (cell fs).1
    = ((cell fs).1,
       sample_read (Some (sample_serialize "graph").1)
                   (Some (sample_serialize "graph").2)).
Proof.
  apply (conversion_miss_then_read string sample_convert sample_serialize
           sample_read "cmodel.onnx" "cmodel.xml"
           {[ "cmodel.onnx" := "graph" ]} "graph").
  - reflexivity.
  - reflexivity.
  - discriminate.
Defined.

(** X23 on a cached artifact whose ONNX source is replaced. *)
Lemma conversion_cache_ignores_source_witness :
  let cell := ir_cmodel_cell string sample_convert sample_serialize
                sample_read "cmodel.onnx" "cmodel.xml" in
  let fs : files := {[ "cmodel.onnx" := "graph"; "cmodel.xml" := "<net/>";
                       "cmodel.bin" := "" ]} in
  let changed := partial_alter (λ _, Some "another graph") "cmodel.onnx" fs in
  cell changed = (changed, (cell fs).2).
Proof.
  apply (conversion_cache_ignores_source string sample_convert
           sample_serialize sample_read "cmodel.onnx" "cmodel.xml"
           {[ "cmodel.onnx" := "graph"; "cmodel.xml" := "<net/>";
              "cmodel.bin" := "" ]} (Some "another graph")).
  - by eexists.
  - discriminate.
  - discriminate.
Defined.

(** X24 on a directory with a stale artifact. *)
Lemma slowfast_cells_overwrite_witness :
  let cells := slowfast_convert_cells string sample_convert sample_serialize
                 sample_read "slowfast-r50.onnx" "slowfast-r50.xml" in
  let fs : files := {[ "slowfast-r50.onnx" := "graph";
                       "slowfast-r50.xml" := "stale" ]} in
  (cells fs).1 !! "slowfast-r50.xml" = Some (sample_serialize "graph").1
  ∧ (cells fs).1 !! bin_path "slowfast-r50.xml"
    = Some (sample_serialize "graph").2
  ∧ (cells fs).2 = sample_read (Some (sample_serialize "graph").1)
                               (Some (sample_serialize "graph").2)
  ∧ cells (cells fs).1 = cells fs.
Proof.
  apply (slowfast_cells_overwrite string sample_convert sample_serialize
           sample_read "slowfast-r50.onnx" "slowfast-r50.xml"
           {[ "slowfast-r50.onnx" := "graph"; "slowfast-r50.xml" := "stale" ]}
           "graph").
  - reflexivity.
  - discriminate.
  - discriminate.
  - discriminate.
Defined.
